(** * Credential resolution cache of the Tuya BLE integration

    A shallow embedding of [custom_components/tuya_ble/cloud.py]
    (class [HASSTuyaBLEDeviceManager]) and of
    [custom_components/tuya_ble/tuya_ble/manager.py]
    ([TuyaBLEDeviceCredentials], [check_and_create_device_credentials]).

    Python dictionaries are association lists kept in insertion order,
    the process-wide [_cache] and the dictionaries that the code shares by
    reference live in an explicit store, the remote directory client is an
    oracle that answers every call from the history of earlier calls, and
    exceptions are results of an error monad that keeps the store reached
    when the exception was raised. *)

From Stdlib Require Import String Ascii List ZArith Bool Arith Lia DecimalString.
Import ListNotations.
Local Open Scope string_scope.
Local Open Scope nat_scope.
Set Warnings "-register-all".

(** ** Python values *)

Module Py.

(** The values that configuration dictionaries and JSON responses hold.
    [VAuthType v] is a member of the enumeration [tuya_iot.AuthType] whose
    [.value] is [v].  Strings are sequences of one-byte characters; numbers
    that are not integers do not occur in the fields the code reads. *)
Inductive pyval : Type :=
| VNone
| VBool (b : bool)
| VInt (z : Z)
| VStr (s : string)
| VList (l : list pyval)
| VDict (d : list (string * pyval))
| VAuthType (v : Z).

Definition dict := list (string * pyval).

Inductive exn : Type :=
| KeyError
| TypeError
| AttributeError
| IndexError
| RemoteError (msg : string).

Inductive result (A : Type) : Type :=
| Ok (a : A)
| Err (e : exn).
Arguments Ok {A} a.
Arguments Err {A} e.

(** [bool(v)] *)
Definition truthy (v : pyval) : bool :=
  match v with
  | VNone => false
  | VBool b => b
  | VInt z => negb (Z.eqb z 0)
  | VStr s => negb (Nat.eqb (String.length s) 0)
  | VList l => negb (Nat.eqb (List.length l) 0)
  | VDict d => negb (Nat.eqb (List.length d) 0)
  | VAuthType _ => true
  end.

(** [v is not None] *)
Definition is_not_None (v : pyval) : bool :=
  match v with VNone => false | _ => true end.

(** *** Association lists as dictionaries *)

Section Assoc.
Context {V : Type}.

Fixpoint lookup (m : list (string * V)) (k : string) : option V :=
  match m with
  | [] => None
  | (k', v) :: m' => if String.eqb k' k then Some v else lookup m' k
  end.

(** [m[k] = v]: an existing key keeps its position, a new key goes last. *)
Fixpoint assign (m : list (string * V)) (k : string) (v : V) : list (string * V) :=
  match m with
  | [] => [(k, v)]
  | (k', v') :: m' =>
      if String.eqb k' k then (k', v) :: m' else (k', v') :: assign m' k v
  end.

(** [m.update(m2)] *)
Definition update (m m2 : list (string * V)) : list (string * V) :=
  fold_left (fun acc kv => assign acc (fst kv) (snd kv)) m2 m.

(** a dictionary display [{k1: v1, ..., kn: vn}] *)
Definition literal (kvs : list (string * V)) : list (string * V) :=
  update [] kvs.
End Assoc.

(** [d.get(k, default)] on a dictionary *)
Definition dict_get (d : dict) (k : string) (default : pyval) : pyval :=
  match lookup d k with Some v => v | None => default end.

(** [d[k]] on a dictionary *)
Definition dict_item (d : dict) (k : string) : result pyval :=
  match lookup d k with Some v => Ok v | None => Err KeyError end.

(** [v.get(k, default)] on any value: only dictionaries have [get]. *)
Definition py_get (v : pyval) (k : string) (default : pyval) : result pyval :=
  match v with
  | VDict d => Ok (dict_get d k default)
  | _ => Err AttributeError
  end.

(** [len(v)] *)
Definition py_len (v : pyval) : result nat :=
  match v with
  | VStr s => Ok (String.length s)
  | VList l => Ok (List.length l)
  | VDict d => Ok (List.length d)
  | _ => Err TypeError
  end.

(** [v[0]] *)
Definition py_first (v : pyval) : result pyval :=
  match v with
  | VStr (String c _) => Ok (VStr (String c EmptyString))
  | VStr EmptyString => Err IndexError
  | VList (x :: _) => Ok x
  | VList [] => Err IndexError
  | VDict _ => Err KeyError
  | _ => Err TypeError
  end.

Fixpoint is_substring (p s : string) : bool :=
  String.prefix p s
  || match s with
     | EmptyString => false
     | String _ s' => is_substring p s'
     end.

Definition pyval_is_str (k : string) (v : pyval) : bool :=
  match v with VStr s => String.eqb s k | _ => false end.

(** [k in v] for a string [k] *)
Definition py_contains (k : string) (v : pyval) : result bool :=
  match v with
  | VDict d => Ok (match lookup d k with Some _ => true | None => false end)
  | VStr s => Ok (is_substring k s)
  | VList l => Ok (existsb (pyval_is_str k) l)
  | _ => Err TypeError
  end.

(** [v[k]] for a string [k] *)
Definition py_item (v : pyval) (k : string) : result pyval :=
  match v with
  | VDict d => dict_item d k
  | _ => Err TypeError
  end.

Fixpoint chars (s : string) : list pyval :=
  match s with
  | EmptyString => []
  | String c s' => VStr (String c EmptyString) :: chars s'
  end.

(** [isinstance(v, Iterable)] together with the sequence [for x in v]
    runs over. *)
Definition py_iter (v : pyval) : option (list pyval) :=
  match v with
  | VStr s => Some (chars s)
  | VList l => Some l
  | VDict d => Some (map (fun kv => VStr (fst kv)) d)
  | _ => None
  end.

(** *** [str.upper] on the ASCII range

    On a string of ASCII characters [str.upper] maps the letters a to z
    to A to Z, character by character, and that is [upper].  Python's
    method also changes characters beyond ASCII, some of them into two;
    the statements below that depend on the characters or on the length
    of an uppercased string are about ASCII input. *)

Definition upper_ascii (c : ascii) : ascii :=
  let n := nat_of_ascii c in
  if (97 <=? n) && (n <=? 122) then ascii_of_nat (n - 32) else c.

Fixpoint upper (s : string) : string :=
  match s with
  | EmptyString => EmptyString
  | String c s' => String (upper_ascii c) (upper s')
  end.

(** *** [json.dumps] with its default separators and [ensure_ascii] *)

Definition hex_digit (n : nat) : ascii :=
  if n <? 10 then ascii_of_nat (48 + n) else ascii_of_nat (87 + n).

Definition json_escape_char (c : ascii) : string :=
  let n := nat_of_ascii c in
  if Nat.eqb n 34 then "\" ++ String c EmptyString
  else if Nat.eqb n 92 then "\\"
  else if Nat.eqb n 10 then "\n"
  else if Nat.eqb n 13 then "\r"
  else if Nat.eqb n 9 then "\t"
  else if Nat.eqb n 12 then "\f"
  else if Nat.eqb n 8 then "\b"
  else if (32 <=? n) && (n <=? 126) then String c EmptyString
  else "\u00" ++ String (hex_digit (n / 16)) (String (hex_digit (n mod 16)) EmptyString).

Fixpoint json_escape (s : string) : string :=
  match s with
  | EmptyString => EmptyString
  | String c s' => json_escape_char c ++ json_escape s'
  end.

Definition json_quote (s : string) : string :=
  String (ascii_of_nat 34) (json_escape s ++ String (ascii_of_nat 34) EmptyString).

Definition json_int (z : Z) : string := NilZero.string_of_int (Z.to_int z).

(** [json.dumps(v)]; a member of a plain [Enum] is not serialisable and
    makes the call raise [TypeError]. *)
Fixpoint json_dumps (v : pyval) : result string :=
  match v with
  | VNone => Ok "null"
  | VBool true => Ok "true"
  | VBool false => Ok "false"
  | VInt z => Ok (json_int z)
  | VStr s => Ok (json_quote s)
  | VList l =>
      let fix items (l : list pyval) : result (list string) :=
        match l with
        | [] => Ok []
        | x :: l' =>
            match json_dumps x, items l' with
            | Ok a, Ok b => Ok (a :: b)
            | Err e, _ => Err e
            | _, Err e => Err e
            end
        end in
      match items l with
      | Ok parts => Ok ("[" ++ String.concat ", " parts ++ "]")
      | Err e => Err e
      end
  | VDict d =>
      let fix members (d : list (string * pyval)) : result (list string) :=
        match d with
        | [] => Ok []
        | (k, x) :: d' =>
            match json_dumps x, members d' with
            | Ok a, Ok b => Ok ((json_quote k ++ ": " ++ a) :: b)
            | Err e, _ => Err e
            | _, Err e => Err e
            end
        end in
      match members d with
      | Ok parts => Ok ("{" ++ String.concat ", " parts ++ "}")
      | Err e => Err e
      end
  | VAuthType _ => Err TypeError
  end.

End Py.
Import Py.

(** ** Constants of [const.py] and of Home Assistant

    [const.py] and [homeassistant.const] are not part of the sources at
    hand: the names the code imports from them are fields of a class, and
    every definition below is parametric in them. *)

Class Const : Type := {
  CONF_ADDRESS : string;
  CONF_DEVICE_ID : string;
  CONF_COUNTRY_CODE : string;
  CONF_PASSWORD : string;
  CONF_USERNAME : string;
  CONF_ACCESS_ID : string;
  CONF_ACCESS_SECRET : string;
  CONF_APP_TYPE : string;
  CONF_AUTH_TYPE : string;
  CONF_ENDPOINT : string;
  CONF_PRODUCT_MODEL : string;
  CONF_UUID : string;
  CONF_LOCAL_KEY : string;
  CONF_CATEGORY : string;
  CONF_PRODUCT_ID : string;
  CONF_DEVICE_NAME : string;
  CONF_PRODUCT_NAME : string;
  CONF_FUNCTIONS : string;
  CONF_STATUS_RANGE : string;
  TUYA_FACTORY_INFO_MAC : string;
  TUYA_RESPONSE_RESULT : string;
  TUYA_RESPONSE_SUCCESS : string
}.

(** ** [tuya_ble/manager.py] *)

Record TuyaBLEDeviceCredentials : Type := {
  uuid : pyval;
  local_key : pyval;
  device_id : pyval;
  category : pyval;
  product_id : pyval;
  device_name : pyval;
  product_model : pyval;
  product_name : pyval;
  functions : pyval;
  status_range : pyval
}.

Definition check_and_create_device_credentials
    (uuid local_key device_id category product_id
     device_name product_model product_name functions status_range : pyval)
  : option TuyaBLEDeviceCredentials :=
  if truthy uuid && truthy local_key && truthy device_id
     && truthy category && truthy product_id
  then Some (Build_TuyaBLEDeviceCredentials
               uuid local_key device_id category product_id
               device_name product_model product_name functions status_range)
  else None.

(** ** The remote directory client

    A [TuyaOpenAPI] object is created from four fields of the login data;
    [connect] and [get] are the two calls the manager makes on it.  The
    three request paths are [TUYA_API_DEVICES_URL] (formatted with the uid
    of the session the object holds), [TUYA_API_FACTORY_INFO_URL] and
    [TUYA_API_DEVICE_SPECIFICATION] (formatted with a device id). *)

Record TuyaOpenAPI : Type := {
  api_endpoint : pyval;
  api_access_id : pyval;
  api_access_secret : pyval;
  api_auth_type : pyval
}.

Inductive request : Type :=
| ReqDevices
| ReqFactoryInfo (id : pyval)
| ReqSpecification (id : pyval).

Inductive call : Type :=
| CallConnect (api : TuyaOpenAPI) (username password country_code app_type : pyval)
| CallGet (api : TuyaOpenAPI) (req : request).

(** The client answers a call, given the calls made before it, with a
    response or by raising. *)
Definition remote : Type := list call -> call -> result pyval.

Definition is_connect (c : call) : bool :=
  match c with CallConnect _ _ _ _ _ => true | CallGet _ _ => false end.

Definition logins (log : list call) : nat := List.length (filter is_connect log).

(** ** The store *)

Definition loc := nat.

Record TuyaCloudCacheItem : Type := {
  api : option TuyaOpenAPI;
  login : loc;                         (* a reference to the login dictionary *)
  credentials : list (string * dict)
}.

Record state : Type := {
  heap : loc -> dict;                  (* dictionaries shared by reference *)
  next : loc;                          (* the next fresh reference *)
  _cache : list (string * TuyaCloudCacheItem);
  calls : list call                    (* the calls made to the client so far *)
}.

Definition set_heap (s : state) (l : loc) (d : dict) : state :=
  {| heap := fun l' => if Nat.eqb l' l then d else heap s l';
     next := next s; _cache := _cache s; calls := calls s |}.

Definition set_cache (s : state) (c : list (string * TuyaCloudCacheItem)) : state :=
  {| heap := heap s; next := next s; _cache := c; calls := calls s |}.

(** ** Computations: state passing with exceptions

    A raised exception leaves the store as it was when it was raised. *)

Definition M (A : Type) : Type := state -> state * result A.

Definition ret {A} (a : A) : M A := fun s => (s, Ok a).

Definition raise {A} (e : exn) : M A := fun s => (s, Err e).

Definition bind {A B} (m : M A) (k : A -> M B) : M B :=
  fun s => match m s with
           | (s', Ok a) => k a s'
           | (s', Err e) => (s', Err e)
           end.

Notation "x <- m ;; k" := (bind m (fun x => k))
  (at level 61, m at next level, right associativity).
Notation "m ;;; k" := (bind m (fun _ => k))
  (at level 61, right associativity).

Definition lift {A} (r : result A) : M A := fun s => (s, r).

(** [try: m  except Exception as e: h e] *)
Definition try_except {A} (m : M A) (h : exn -> M A) : M A :=
  fun s => match m s with
           | (s', Ok a) => (s', Ok a)
           | (s', Err e) => h e s'
           end.

Fixpoint for_each {A} (body : A -> M unit) (l : list A) : M unit :=
  match l with
  | [] => ret tt
  | x :: l' => body x ;;; for_each body l'
  end.

Definition read (l : loc) : M dict := fun s => (s, Ok (heap s l)).

Definition write (l : loc) (d : dict) : M unit := fun s => (set_heap s l d, Ok tt).

(** a fresh empty dictionary *)
Definition alloc : M loc :=
  fun s => ({| heap := fun l' => if Nat.eqb l' (next s) then [] else heap s l';
               next := S (next s); _cache := _cache s; calls := calls s |},
            Ok (next s)).

(** [target.update(source)] for two references; updating a dictionary
    with itself changes nothing. *)
Definition update_from (target source : loc) : M unit :=
  if Nat.eqb target source then ret tt
  else s <- read source ;; t <- read target ;; write target (update t s).

Definition get_cache : M (list (string * TuyaCloudCacheItem)) :=
  fun s => (s, Ok (_cache s)).

(** [_cache.get(key)] where [key] may be [None]; an item is referred to
    by the key it is stored under. *)
Definition cache_get (key : option string) : M (option TuyaCloudCacheItem) :=
  fun s => (s, Ok (match key with Some k => lookup (_cache s) k | None => None end)).

Definition put_cache (key : string) (item : TuyaCloudCacheItem) : M unit :=
  fun s => (set_cache s (assign (_cache s) key item), Ok tt).

(** one call to the client, recorded in [calls] *)
Definition call_remote (R : remote) (c : call) : M pyval :=
  fun s => ({| heap := heap s; next := next s; _cache := _cache s;
               calls := (calls s ++ [c])%list |},
            R (calls s) c).

(** ** [cloud.py] *)

Section Manager.
Context {K : Const}.

Definition CONF_TUYA_LOGIN_KEYS : list string :=
  [ CONF_ENDPOINT; CONF_ACCESS_ID; CONF_ACCESS_SECRET; CONF_AUTH_TYPE;
    CONF_USERNAME; CONF_PASSWORD; CONF_COUNTRY_CODE; CONF_APP_TYPE ].

Definition CONF_TUYA_DEVICE_KEYS : list string :=
  [ CONF_UUID; CONF_LOCAL_KEY; CONF_DEVICE_ID; CONF_CATEGORY; CONF_PRODUCT_ID;
    CONF_DEVICE_NAME; CONF_PRODUCT_NAME; CONF_PRODUCT_MODEL ].

Definition _is_login_success (response : pyval) : result bool :=
  match py_get response TUYA_RESPONSE_SUCCESS (VBool false) with
  | Ok v => Ok (truthy v)
  | Err e => Err e
  end.

(** [{key: data.get(key) for key in CONF_TUYA_LOGIN_KEYS}] *)
Definition key_dict (data : dict) : dict :=
  literal (map (fun key => (key, dict_get data key VNone)) CONF_TUYA_LOGIN_KEYS).

Definition _get_cache_key (data : dict) : result string :=
  json_dumps (VDict (key_dict data)).

Definition _has_login (data : dict) : bool :=
  forallb (fun key => is_not_None (dict_get data key VNone)) CONF_TUYA_LOGIN_KEYS.

Definition _has_credentials (data : dict) : bool :=
  forallb (fun key => is_not_None (dict_get data key VNone)) CONF_TUYA_DEVICE_KEYS.

(** [TuyaOpenAPI(endpoint=..., access_id=..., access_secret=..., auth_type=...)] *)
Definition open_api (data : dict) : TuyaOpenAPI :=
  {| api_endpoint := dict_get data CONF_ENDPOINT (VStr "");
     api_access_id := dict_get data CONF_ACCESS_ID (VStr "");
     api_access_secret := dict_get data CONF_ACCESS_SECRET (VStr "");
     api_auth_type := dict_get data CONF_AUTH_TYPE (VStr "") |}.

Section WithRemote.
Variable R : remote.

(** [_login(data, add_to_cache)]; [data] is a reference, and the cache item
    keeps that reference as its [login]. *)
Definition _login (data : loc) (add_to_cache : bool) : M pyval :=
  d <- read data ;;
  if Nat.eqb (List.length d) 0 then ret (VDict [])
  else
    let api := open_api d in
    answer <- try_except
                (response <- call_remote R
                    (CallConnect api
                       (dict_get d CONF_USERNAME (VStr ""))
                       (dict_get d CONF_PASSWORD (VStr ""))
                       (dict_get d CONF_COUNTRY_CODE (VStr ""))
                       (dict_get d CONF_APP_TYPE (VStr ""))) ;;
                 ret (Some response))
                (fun _ => ret None) ;;
    match answer with
    | None => ret (VDict [])
    | Some response =>
        success <- lift (_is_login_success response) ;;
        (if success then
           _ <- lift (dict_item d CONF_USERNAME) ;;
           if add_to_cache then
             auth_type <- lift (dict_item d CONF_AUTH_TYPE) ;;
             match auth_type with
             | VAuthType v => write data (assign d CONF_AUTH_TYPE (VInt v))
             | _ => ret tt
             end ;;;
             d' <- read data ;;
             cache_key <- lift (_get_cache_key d') ;;
             cache_item <- cache_get (Some cache_key) ;;
             match cache_item with
             | Some item =>
                 put_cache cache_key
                   {| api := Some api; login := data; credentials := credentials item |}
             | None =>
                 put_cache cache_key
                   {| api := Some api; login := data; credentials := [] |}
             end
           else ret tt
         else ret tt) ;;;
        ret response
    end.

Definition range_0_12_2 : list nat := [0; 2; 4; 6; 8; 10].

(** [":".join(raw[i : i + 2] for i in range(0, 12, 2)).upper()] *)
Definition format_mac (raw : pyval) : result string :=
  match raw with
  | VStr s => Ok (upper (String.concat ":" (map (fun i => substring i 2 s) range_0_12_2)))
  | _ => Err TypeError
  end.

(** the dictionary stored for a device under its address *)
Definition device_entry (mac : string) (device : dict) : dict :=
  literal
    [ (CONF_ADDRESS, VStr mac);
      (CONF_UUID, dict_get device "uuid" VNone);
      (CONF_LOCAL_KEY, dict_get device "local_key" VNone);
      (CONF_DEVICE_ID, dict_get device "id" VNone);
      (CONF_CATEGORY, dict_get device "category" VNone);
      (CONF_PRODUCT_ID, dict_get device "product_id" VNone);
      (CONF_DEVICE_NAME, dict_get device "name" VNone);
      (CONF_PRODUCT_MODEL, dict_get device "model" VNone);
      (CONF_PRODUCT_NAME, dict_get device "product_name" VNone) ].

Definition with_credentials (item : TuyaCloudCacheItem) (c : list (string * dict))
  : TuyaCloudCacheItem :=
  {| api := api item; login := login item; credentials := c |}.

(** the item stored under [key]; there is none only if the caller passed
    [None], on which the attribute accesses below fail *)
Definition the_item (key : string) : M TuyaCloudCacheItem :=
  item <- cache_get (Some key) ;;
  match item with
  | Some it => ret it
  | None => raise AttributeError
  end.

(** [item.credentials[mac] = entry] *)
Definition set_entry (key mac : string) (entry : dict) : M unit :=
  item <- the_item key ;;
  put_cache key (with_credentials item (assign (credentials item) mac entry)).

(** [item.credentials[mac][field] = v] *)
Definition set_entry_field (key mac field : string) (v : pyval) : M unit :=
  item <- the_item key ;;
  match lookup (credentials item) mac with
  | Some entry => set_entry key mac (assign entry field v)
  | None => raise KeyError
  end.

(** the body of the loop over the devices; returning early is [continue].
    Both handlers evaluate [device.get("id")] again for their log line. *)
Definition fill_device (key : string) (session : TuyaOpenAPI) (device : pyval) : M unit :=
  answer <- try_except
              (id <- lift (py_get device "id" VNone) ;;
               fi_response <- call_remote R (CallGet session (ReqFactoryInfo id)) ;;
               ret (Some fi_response))
              (fun _ => lift (py_get device "id" VNone) ;;; ret None) ;;
  match answer with
  | None => ret tt
  | Some fi_response =>
      fi_response_result <- lift (py_get fi_response TUYA_RESPONSE_RESULT VNone) ;;
      if truthy fi_response_result then
        n <- lift (py_len fi_response_result) ;;
        if 0 <? n then
          factory_info <- lift (py_first fi_response_result) ;;
          if truthy factory_info then
            has_mac <- lift (py_contains TUYA_FACTORY_INFO_MAC factory_info) ;;
            if has_mac then
              raw <- lift (py_item factory_info TUYA_FACTORY_INFO_MAC) ;;
              mac <- lift (format_mac raw) ;;
              match device with
              | VDict dev =>
                  set_entry key mac (device_entry mac dev) ;;;
                  answer <- try_except
                              (spec_response <- call_remote R
                                 (CallGet session (ReqSpecification (dict_get dev "id" VNone))) ;;
                               ret (Some spec_response))
                              (fun _ => lift (py_get device "id" VNone) ;;; ret None) ;;
                  match answer with
                  | None => ret tt
                  | Some spec_response =>
                      spec_response_result <-
                        lift (py_get spec_response TUYA_RESPONSE_RESULT VNone) ;;
                      if truthy spec_response_result then
                        functions <- lift (py_get spec_response_result "functions" VNone) ;;
                        (if truthy functions
                         then set_entry_field key mac CONF_FUNCTIONS functions
                         else ret tt) ;;;
                        status <- lift (py_get spec_response_result "status" VNone) ;;
                        if truthy status
                        then set_entry_field key mac CONF_STATUS_RANGE status
                        else ret tt
                      else ret tt
                  end
              | _ => raise AttributeError
              end
            else ret tt
          else ret tt
        else ret tt
      else ret tt
  end.

(** [_fill_cache_item(item)], [item] being the one stored under [key] *)
Definition _fill_cache_item (key : string) : M unit :=
  item <- the_item key ;;
  match api item with
  | None => raise AttributeError
  | Some session =>
      answer <- try_except
                  (devices_response <- call_remote R (CallGet session ReqDevices) ;;
                   ret (Some devices_response))
                  (fun _ => ret None) ;;
      match answer with
      | None => ret tt
      | Some devices_response =>
          devices <- lift (py_get devices_response TUYA_RESPONSE_RESULT VNone) ;;
          if truthy devices then
            match py_iter devices with
            | Some l => for_each (fill_device key session) l
            | None => ret tt
            end
          else ret tt
      end
  end.

(** one round of either loop of [build_cache]; [data] is the dictionary
    the method allocates once and refills for every configuration entry *)
Definition build_entry (data : loc) (entry : dict) : M unit :=
  write data [] ;;;
  d0 <- read data ;;
  write data (update d0 entry) ;;;
  d <- read data ;;
  key <- lift (_get_cache_key d) ;;
  item <- cache_get (Some key) ;;
  if match item with
     | None => true
     | Some it => Nat.eqb (List.length (credentials it)) 0
     end
  then
    response <- _login data true ;;
    success <- lift (_is_login_success response) ;;
    if success then
      item <- cache_get (Some key) ;;
      match item with
      | Some it =>
          if Nat.eqb (List.length (credentials it)) 0
          then _fill_cache_item key
          else ret tt
      | None => ret tt
      end
    else ret tt
  else ret tt.

(** [build_cache()]; [tuya_entries] are the [data] of the configuration
    entries of the Tuya domain and [ble_entries] the [options] of those of
    this integration, as the host application lists them. *)
Definition build_cache (tuya_entries ble_entries : list dict) : M unit :=
  data <- alloc ;;
  for_each (build_entry data) tuya_entries ;;;
  for_each (build_entry data) ble_entries.

(** [get_login_from_cache()] of the manager whose [_data] is [self] *)
Definition get_login_from_cache (self : loc) : M unit :=
  c <- get_cache ;;
  match c with
  | (_, cache_item) :: _ => update_from self (login cache_item)
  | [] => ret tt
  end.

(** the first key whose item knows [address], in insertion order *)
Fixpoint find_by_address (c : list (string * TuyaCloudCacheItem)) (address : string)
  : option string :=
  match c with
  | [] => None
  | (key, item) :: c' =>
      match lookup (credentials item) address with
      | Some _ => Some key
      | None => find_by_address c' address
      end
  end.

(** [if cache_key:] *)
Definition key_truthy (cache_key : option string) : bool :=
  match cache_key with
  | Some k => negb (Nat.eqb (String.length k) 0)
  | None => false
  end.

Definition credentials_of (c : dict) : TuyaBLEDeviceCredentials :=
  {| uuid := dict_get c CONF_UUID (VStr "");
     local_key := dict_get c CONF_LOCAL_KEY (VStr "");
     device_id := dict_get c CONF_DEVICE_ID (VStr "");
     category := dict_get c CONF_CATEGORY (VStr "");
     product_id := dict_get c CONF_PRODUCT_ID (VStr "");
     device_name := dict_get c CONF_DEVICE_NAME (VStr "");
     product_model := dict_get c CONF_PRODUCT_MODEL (VStr "");
     product_name := dict_get c CONF_PRODUCT_NAME (VStr "");
     functions := dict_get c CONF_FUNCTIONS (VList []);
     status_range := dict_get c CONF_STATUS_RANGE (VList []) |}.

(** the first half of [get_device_credentials]: the key of the cache item
    to use, if any, and the credential dictionary found, if any *)
Definition find_credentials (self : loc) (address : string) (force_update : bool)
  : M (option string * option dict) :=
  d <- read self ;;
  if negb force_update && _has_credentials d then ret (None, Some d)
  else
    cache_key <-
      (if _has_login d
       then k <- lift (_get_cache_key d) ;; ret (Some k)
       else c <- get_cache ;; ret (find_by_address c address)) ;;
    found <- (if key_truthy cache_key then cache_get cache_key else ret None) ;;
    let item := match found with Some _ => cache_key | None => None end in
    item <-
      (if match item with None => true | Some _ => false end || force_update
       then
         response <- _login self true ;;
         success <- lift (_is_login_success response) ;;
         if success then
           found <- cache_get cache_key ;;
           match found, cache_key with
           | Some _, Some k => _fill_cache_item k ;;; ret (Some k)
           | _, _ => ret None
           end
         else ret item
       else ret item) ;;
    match item with
    | Some k =>
        it <- the_item k ;;
        ret (Some k, lookup (credentials it) address)
    | None => ret (None, None)
    end.

(** [get_device_credentials(address, force_update, save_data)] of the
    manager whose [_data] is [self] *)
Definition get_device_credentials (self : loc) (address : string)
    (force_update save_data : bool) : M (option TuyaBLEDeviceCredentials) :=
  found <- find_credentials self address force_update ;;
  let '(item, credentials) := found in
  match credentials with
  | Some c =>
      if negb (Nat.eqb (List.length c) 0) then
        (if save_data then
           match item with
           | Some k => it <- the_item k ;; update_from self (login it)
           | None => ret tt
           end ;;;
           d <- read self ;;
           write self (update d c)
         else ret tt) ;;;
        ret (Some (credentials_of c))
      else ret None
  | None => ret None
  end.

End WithRemote.
End Manager.

(** ** [cloud.py]: [_check_login] *)

Section ManagerRest.
Context {K : Const}.

(** [_check_login()] of the manager whose [_data] is [self] *)
Definition _check_login (self : loc) : M bool :=
  d <- read self ;;
  cache_key <- lift (_get_cache_key d) ;;
  item <- cache_get (Some cache_key) ;;
  ret (match item with Some _ => true | None => false end).

End ManagerRest.

(** ** [config_flow.py]: [_try_login]

    The countries, the two application names, the names of the response
    fields and the values of the two members of [tuya_iot.AuthType] come
    from modules that are not part of the sources at hand; they are fields
    of a second class.  A country is read through its attributes [name],
    [country_code] and [endpoint]. *)

Record Country : Type := {
  name : string;
  country_code : string;
  endpoint : string
}.

Class FlowConst : Type := {
  TUYA_COUNTRIES : list Country;
  TUYA_SMART_APP : string;
  SMARTLIFE_APP : string;
  TUYA_RESPONSE_CODE : string;
  TUYA_RESPONSE_MSG : string;
  SMART_HOME : Z;                      (* [AuthType.SMART_HOME.value] *)
  CUSTOM : Z                           (* [AuthType.CUSTOM.value] *)
}.

Section Flow.
Context {K : Const} {F : FlowConst}.
Variable R : remote.

(** [[country for country in TUYA_COUNTRIES
      if country.name == user_input[CONF_COUNTRY_CODE]]]; the subscript is
    evaluated once per country, so not at all when there is none *)
Definition select_country (user_input : dict) : result (list Country) :=
  match TUYA_COUNTRIES with
  | [] => Ok []
  | _ :: _ =>
      match dict_item user_input CONF_COUNTRY_CODE with
      | Ok v => Ok (filter (fun country => pyval_is_str (name country) v) TUYA_COUNTRIES)
      | Err e => Err e
      end
  end.

(** the loop over the application types, from [app_type] on; it returns
    whether a login succeeded, and the last response *)
Fixpoint try_app_types (data : loc) (app_type : string) (rest : list string)
  : M (bool * pyval) :=
  d <- read data ;;
  write data (assign d CONF_APP_TYPE (VStr app_type)) ;;;
  d <- read data ;;
  write data (assign d CONF_AUTH_TYPE
                (VAuthType (if String.eqb app_type "" then CUSTOM else SMART_HOME))) ;;;
  response <- _login R data true ;;
  success <- lift (py_get response TUYA_RESPONSE_SUCCESS (VBool false)) ;;
  if truthy success then ret (true, response)
  else
    match rest with
    | [] => ret (false, response)
    | next_type :: rest' => try_app_types data next_type rest'
    end.

(** [_try_login(manager, user_input, errors, placeholders)]; [errors] and
    [placeholders] are references to the caller's dictionaries, and the
    result is the reference to the login data, or [None] *)
Definition _try_login (user_input : dict) (errors placeholders : loc) : M (option loc) :=
  selected <- lift (select_country user_input) ;;
  match selected with
  | [] =>
      lift (dict_item user_input CONF_COUNTRY_CODE) ;;;
      e <- read errors ;;
      write errors (assign e "base" (VStr "invalid_country_code")) ;;;
      ret None
  | country :: _ =>
      access_id <- lift (dict_item user_input CONF_ACCESS_ID) ;;
      access_secret <- lift (dict_item user_input CONF_ACCESS_SECRET) ;;
      username <- lift (dict_item user_input CONF_USERNAME) ;;
      password <- lift (dict_item user_input CONF_PASSWORD) ;;
      data <- alloc ;;
      write data
        (literal
           [ (CONF_ENDPOINT, VStr (endpoint country));
             (CONF_AUTH_TYPE, VAuthType CUSTOM);
             (CONF_ACCESS_ID, access_id);
             (CONF_ACCESS_SECRET, access_secret);
             (CONF_USERNAME, username);
             (CONF_PASSWORD, password);
             (CONF_COUNTRY_CODE, VStr (country_code country)) ]) ;;;
      outcome <- try_app_types data TUYA_SMART_APP [SMARTLIFE_APP; ""] ;;
      let '(logged_in, response) := outcome in
      if logged_in then ret (Some data)
      else
        e <- read errors ;;
        write errors (assign e "base" (VStr "login_error")) ;;;
        (if truthy response then
           code <- lift (py_get response TUYA_RESPONSE_CODE VNone) ;;
           msg <- lift (py_get response TUYA_RESPONSE_MSG VNone) ;;
           p <- read placeholders ;;
           write placeholders
             (update p (literal [ (TUYA_RESPONSE_CODE, code); (TUYA_RESPONSE_MSG, msg) ]))
         else ret tt) ;;;
        ret None
  end.

End Flow.

(** ** Callers on one event loop

    The methods of the manager are coroutines; between two awaits a
    coroutine runs alone, and at an await another task may run.  [_login]
    awaits the answer to its connect request; below it is cut at that
    await, and [get_device_credentials] takes what it awaits at
    [self.login(True)] as a parameter, so that one caller can be run while
    another is suspended there. *)

Section Callers.
Context {K : Const}.
Variable R : remote.

(** the connect request [_login] sends for the login data [d] *)
Definition connect_of (d : dict) : call :=
  CallConnect (open_api d)
    (dict_get d CONF_USERNAME (VStr ""))
    (dict_get d CONF_PASSWORD (VStr ""))
    (dict_get d CONF_COUNTRY_CODE (VStr ""))
    (dict_get d CONF_APP_TYPE (VStr "")).

(** [_login] up to its [await]: the guard, the client object and the
    connect request handed to the executor.  The request is recorded when
    it is sent; what it will resolve to is kept for the resumption. *)
Definition login_send (data : loc) : M (option (TuyaOpenAPI * result pyval)) :=
  d <- read data ;;
  if Nat.eqb (List.length d) 0 then ret None
  else
    fun s => ({| heap := heap s; next := next s; _cache := _cache s;
                 calls := (calls s ++ [connect_of d])%list |},
              Ok (Some (open_api d, R (calls s) (connect_of d)))).

(** [_login] from its [await] on, once the request has resolved *)
Definition login_resume (data : loc) (add_to_cache : bool)
    (sent : option (TuyaOpenAPI * result pyval)) : M pyval :=
  match sent with
  | None => ret (VDict [])
  | Some (_, Err _) => ret (VDict [])
  | Some (api, Ok response) =>
      d <- read data ;;
      success <- lift (_is_login_success response) ;;
      (if success then
         _ <- lift (dict_item d CONF_USERNAME) ;;
         if add_to_cache then
           auth_type <- lift (dict_item d CONF_AUTH_TYPE) ;;
           match auth_type with
           | VAuthType v => write data (assign d CONF_AUTH_TYPE (VInt v))
           | _ => ret tt
           end ;;;
           d' <- read data ;;
           cache_key <- lift (_get_cache_key d') ;;
           cache_item <- cache_get (Some cache_key) ;;
           match cache_item with
           | Some item =>
               put_cache cache_key
                 {| api := Some api; login := data; credentials := credentials item |}
           | None =>
               put_cache cache_key
                 {| api := Some api; login := data; credentials := [] |}
           end
         else ret tt
       else ret tt) ;;;
      ret response
  end.

(** [get_device_credentials] with the coroutine it awaits at
    [self.login(True)] as a parameter *)
Definition find_credentials_via (awaited : M pyval) (self : loc) (address : string)
    (force_update : bool) : M (option string * option dict) :=
  d <- read self ;;
  if negb force_update && _has_credentials d then ret (None, Some d)
  else
    cache_key <-
      (if _has_login d
       then k <- lift (_get_cache_key d) ;; ret (Some k)
       else c <- get_cache ;; ret (find_by_address c address)) ;;
    found <- (if key_truthy cache_key then cache_get cache_key else ret None) ;;
    let item := match found with Some _ => cache_key | None => None end in
    item <-
      (if match item with None => true | Some _ => false end || force_update
       then
         response <- awaited ;;
         success <- lift (_is_login_success response) ;;
         if success then
           found <- cache_get cache_key ;;
           match found, cache_key with
           | Some _, Some k => _fill_cache_item R k ;;; ret (Some k)
           | _, _ => ret None
           end
         else ret item
       else ret item) ;;
    match item with
    | Some k =>
        it <- the_item k ;;
        ret (Some k, lookup (credentials it) address)
    | None => ret (None, None)
    end.

Definition get_device_credentials_via (awaited : M pyval) (self : loc) (address : string)
    (force_update save_data : bool) : M (option TuyaBLEDeviceCredentials) :=
  found <- find_credentials_via awaited self address force_update ;;
  let '(item, credentials) := found in
  match credentials with
  | Some c =>
      if negb (Nat.eqb (List.length c) 0) then
        (if save_data then
           match item with
           | Some k => it <- the_item k ;; update_from self (login it)
           | None => ret tt
           end ;;;
           d <- read self ;;
           write self (update d c)
         else ret tt) ;;;
        ret (Some (credentials_of c))
      else ret None
  | None => ret None
  end.

(** a task run to its end: its result and its exception are its own *)
Definition task {A} (m : M A) : M unit := fun s => (fst (m s), Ok tt).

(** a caller of [get_device_credentials] without [force_update]: its
    manager, the address it asks for and its [save_data] *)
Definition caller : Type := (loc * string * bool)%type.

Definition manager_of (c : caller) : loc := fst (fst c).

Definition resolve (c : caller) : M (option TuyaBLEDeviceCredentials) :=
  get_device_credentials R (manager_of c) (snd (fst c)) false (snd c).

(** the callers served one after another *)
Fixpoint resolve_in_turn (callers : list caller) : M unit :=
  match callers with
  | [] => ret tt
  | c :: rest => task (resolve c) ;;; resolve_in_turn rest
  end.

(** two callers on one event loop: the second runs while the first awaits
    the answer to its connect request, and the first resumes when the
    second is done *)
Definition resolve_overlapping (first second : caller)
  : M (option TuyaBLEDeviceCredentials) :=
  get_device_credentials_via
    (sent <- login_send (manager_of first) ;;
     task (resolve second) ;;;
     login_resume (manager_of first) true sent)
    (manager_of first) (snd (fst first)) false (snd first).

End Callers.

(** ** Vocabulary of the statements *)

Section Vocabulary.
Context {K : Const}.

(** the five required fields are all non-empty *)
Definition is_complete (c : TuyaBLEDeviceCredentials) : bool :=
  truthy (uuid c) && truthy (local_key c) && truthy (device_id c)
  && truthy (category c) && truthy (product_id c).

(** [address] has a complete credential in the manager's data or in the
    cache *)
Definition known_complete (s : state) (self : loc) (address : string) : Prop :=
  (_has_credentials (heap s self) = true
   /\ is_complete (credentials_of (heap s self)) = true)
  \/ exists key item entry,
       lookup (_cache s) key = Some item
       /\ lookup (credentials item) address = Some entry
       /\ is_complete (credentials_of entry) = true.

(** the manager's data after a call: as before, or with the [AuthType]
    member under [CONF_AUTH_TYPE] replaced by its value *)
Definition data_normalised (self : loc) (s s' : state) : Prop :=
  heap s' self = heap s self
  \/ exists v, lookup (heap s self) CONF_AUTH_TYPE = Some (VAuthType v)
               /\ heap s' self = assign (heap s self) CONF_AUTH_TYPE (VInt v).

(** [preserves P m]: running [m] relates the store before to the store
    after, whether [m] returns or raises. *)
Definition preserves {A} (P : state -> state -> Prop) (m : M A) : Prop :=
  forall s, P s (fst (m s)).

(** the shared dictionaries are the same *)
Definition same_heap (s s' : state) : Prop := forall l, heap s' l = heap s l.

(** the cache is the same *)
Definition same_cache (s s' : state) : Prop := _cache s' = _cache s.

(** the client has not been asked to log in *)
Definition same_logins (s s' : state) : Prop := logins (calls s') = logins (calls s).

(** every address an item of the cache knows before, the item under the
    same key knows after *)
Definition entries_kept (s s' : state) : Prop :=
  forall key item address entry,
    lookup (_cache s) key = Some item ->
    lookup (credentials item) address = Some entry ->
    exists item' entry',
      lookup (_cache s') key = Some item'
      /\ lookup (credentials item') address = Some entry'.

(** a factory-info response that carries one raw hardware address *)
Definition factory_info_response (raw : string) : pyval :=
  VDict [ (TUYA_RESPONSE_RESULT,
           VList [ VDict [ (TUYA_FACTORY_INFO_MAC, VStr raw) ] ]) ].

(** a specification response whose result is [spec] *)
Definition spec_response (spec : dict) : pyval :=
  VDict [ (TUYA_RESPONSE_RESULT, VDict spec) ].

(** a list-devices response *)
Definition devices_response (devices : list dict) : pyval :=
  VDict [ (TUYA_RESPONSE_RESULT, VList (map VDict devices)) ].

(** the address [format_mac] computes from a raw string *)
Definition mac_of (raw : string) : string :=
  upper (String.concat ":" (map (fun i => substring i 2 raw) range_0_12_2)).


(** the cache holds [item] under [key] *)
Definition item_at (s : state) (key : string) (item : TuyaCloudCacheItem) : Prop :=
  lookup (_cache s) key = Some item.




(** the credential of a device as the list-devices record and the result
    of its specification describe it; an empty [spec] stands for a
    specification that never arrived *)
Definition device_credentials (dev spec : dict) : TuyaBLEDeviceCredentials :=
  {| uuid := dict_get dev "uuid" VNone;
     local_key := dict_get dev "local_key" VNone;
     device_id := dict_get dev "id" VNone;
     category := dict_get dev "category" VNone;
     product_id := dict_get dev "product_id" VNone;
     device_name := dict_get dev "name" VNone;
     product_model := dict_get dev "model" VNone;
     product_name := dict_get dev "product_name" VNone;
     functions :=
       if truthy (VDict spec) && truthy (dict_get spec "functions" VNone)
       then dict_get spec "functions" VNone else VList [];
     status_range :=
       if truthy (VDict spec) && truthy (dict_get spec "status" VNone)
       then dict_get spec "status" VNone else VList [] |}.

(** *** Hardware addresses *)

(** a hexadecimal digit of either case *)
Definition is_hex (c : ascii) : bool :=
  let n := nat_of_ascii c in
  ((48 <=? n) && (n <=? 57)) || ((65 <=? n) && (n <=? 70)) || ((97 <=? n) && (n <=? 102)).

(** a decimal digit or one of A to F *)
Definition is_upper_hex (c : ascii) : bool :=
  let n := nat_of_ascii c in
  ((48 <=? n) && (n <=? 57)) || ((65 <=? n) && (n <=? 70)).

Definition colon : ascii := ascii_of_nat 58.

(** the shape [XX:XX:XX:XX:XX:XX] *)
Fixpoint mac_shape (i : nat) (m : string) : bool :=
  match m with
  | EmptyString => true
  | String c m' =>
      (if Nat.eqb (i mod 3) 2 then Ascii.eqb c colon else is_upper_hex c)
      && mac_shape (S i) m'
  end.

(** a string of hexadecimal digits *)
Fixpoint all_hex (s : string) : bool :=
  match s with
  | EmptyString => true
  | String c s' => is_hex c && all_hex s'
  end.



(** the address without its separators *)
Fixpoint strip_colons (m : string) : string :=
  match m with
  | EmptyString => EmptyString
  | String c m' => if Ascii.eqb c colon then strip_colons m' else String c (strip_colons m')
  end.

End Vocabulary.

(** ** Vocabulary of the further statements *)

(** from [s] to [s'] nothing changed but the sub-map of the item under
    [key] *)
Definition fills_only (key : string) (s s' : state) : Prop :=
  (forall l, heap s' l = heap s l)
  /\ (forall k, k <> key -> lookup (_cache s') k = lookup (_cache s) k)
  /\ match lookup (_cache s) key with
     | Some item =>
         exists item',
           lookup (_cache s') key = Some item'
           /\ api item' = api item /\ login item' = login item
     | None => lookup (_cache s') key = None
     end.

(** a value that is not a dictionary *)
Definition not_a_dict (v : pyval) : Prop :=
  match v with VDict _ => False | _ => True end.

(** no key occurs twice, as in every dictionary of the program *)
Definition unique_keys {V} (m : list (string * V)) : Prop := NoDup (map fst m).

(** the items of [s'] either were in [s] with the same login reference or
    refer to the login dictionary [data] *)
Definition logins_shared (data : loc) (s s' : state) : Prop :=
  forall key item,
    lookup (_cache s') key = Some item ->
    login item = data
    \/ exists old, lookup (_cache s) key = Some old /\ login item = login old.

(** the dictionaries other than the one under [data] are the same *)
Definition heap_but (data : loc) (s s' : state) : Prop :=
  forall l, l <> data -> heap s' l = heap s l.

Section FurtherVocabulary.
Context {K : Const}.

(** what [get_device_credentials] answers from the sub-map of [item] *)
Definition answer_of (item : TuyaCloudCacheItem) (address : string)
  : option TuyaBLEDeviceCredentials :=
  match lookup (credentials item) address with
  | Some c => if negb (Nat.eqb (List.length c) 0) then Some (credentials_of c) else None
  | None => None
  end.

(** [key] is the cache key [get_device_credentials] looks under: the
    fingerprint of the manager's data when it holds a full login, else the
    key the scan for the address returns *)
Definition resolves_to (s : state) (self : loc) (address key : string) : Prop :=
  (_has_login (heap s self) = true /\ _get_cache_key (heap s self) = Ok key)
  \/ (_has_login (heap s self) = false
      /\ find_by_address (_cache s) address = Some key).

(** the eight device fields of two credentials agree *)
Definition same_device_fields (c c' : TuyaBLEDeviceCredentials) : Prop :=
  uuid c' = uuid c /\ local_key c' = local_key c /\ device_id c' = device_id c
  /\ category c' = category c /\ product_id c' = product_id c
  /\ device_name c' = device_name c /\ product_model c' = product_model c
  /\ product_name c' = product_name c.

End FurtherVocabulary.

Section FlowVocabulary.
Context {K : Const} {F : FlowConst}.

(** the store in which a round of the loop of [_try_login] logs in: the
    data holds the application type of the round and the member of
    [AuthType] that goes with it *)
Definition round_state (data : loc) (app_type : string) (s : state) : state :=
  set_heap (set_heap s data (assign (heap s data) CONF_APP_TYPE (VStr app_type))) data
    (assign (assign (heap s data) CONF_APP_TYPE (VStr app_type)) CONF_AUTH_TYPE
       (VAuthType (if String.eqb app_type "" then CUSTOM else SMART_HOME))).

End FlowVocabulary.

(** ** Concrete inputs

    The constants below are the values Home Assistant and the Tuya
    integration use for these names; [prototype.py] builds its login data
    with the same strings.  They serve to run the definitions. *)

Definition hass_const : Const :=
  {| CONF_ADDRESS := "address";
     CONF_DEVICE_ID := "device_id";
     CONF_COUNTRY_CODE := "country_code";
     CONF_PASSWORD := "password";
     CONF_USERNAME := "username";
     CONF_ACCESS_ID := "access_id";
     CONF_ACCESS_SECRET := "access_secret";
     CONF_APP_TYPE := "tuya_app_type";
     CONF_AUTH_TYPE := "auth_type";
     CONF_ENDPOINT := "endpoint";
     CONF_PRODUCT_MODEL := "product_model";
     CONF_UUID := "uuid";
     CONF_LOCAL_KEY := "local_key";
     CONF_CATEGORY := "category";
     CONF_PRODUCT_ID := "product_id";
     CONF_DEVICE_NAME := "device_name";
     CONF_PRODUCT_NAME := "product_name";
     CONF_FUNCTIONS := "functions";
     CONF_STATUS_RANGE := "status_range";
     TUYA_FACTORY_INFO_MAC := "mac";
     TUYA_RESPONSE_RESULT := "result";
     TUYA_RESPONSE_SUCCESS := "success" |}.

(** the store of a process that has just started *)
Definition initial_state : state :=
  {| heap := fun _ => []; next := 0; _cache := []; calls := [] |}.

(** the same login in two dictionaries that differ in the order of their
    keys and in the other keys they hold *)
Definition login_fields_1 : dict :=
  [ ("endpoint", VStr "https://openapi.tuyaus.com");
    ("access_id", VStr "id"); ("access_secret", VStr "secret");
    ("auth_type", VInt 0); ("username", VStr "user"); ("password", VStr "pw");
    ("country_code", VStr "55"); ("tuya_app_type", VStr "tuyaSmart") ].

Definition login_fields_2 : dict :=
  [ ("address", VStr "DC:23:50:CF:CB:6A");
    ("tuya_app_type", VStr "tuyaSmart"); ("country_code", VStr "55");
    ("password", VStr "pw"); ("username", VStr "user");
    ("auth_type", VInt 0); ("access_secret", VStr "secret");
    ("access_id", VStr "id");
    ("endpoint", VStr "https://openapi.tuyaus.com");
    ("uuid", VStr "uuid-1") ].

(** the options of a device that was set up before *)
Definition complete_hint : dict :=
  [ ("address", VStr "DC:23:50:CF:CB:6A"); ("uuid", VStr "tuya5d3f1c");
    ("local_key", VStr "399914473589C1E2"); ("device_id", VStr "eb4e6cocypjwgnxo");
    ("category", VStr "dj"); ("product_id", VStr "u0x2pqrs");
    ("device_name", VStr "Lamp"); ("product_name", VStr "Bulb");
    ("product_model", VStr "B1") ].

(** a client that refuses every call *)
Definition offline : remote := fun _ _ => Err (RemoteError "offline").

(** the store of a manager whose data is [d], under reference 0, before
    anything was cached *)
Definition hint_state (d : dict) : state :=
  {| heap := fun l => if Nat.eqb l 0 then d else [];
     next := 1; _cache := []; calls := [] |}.

(** a client that accepts every login and fails every other request *)
Definition accept : remote :=
  fun _ c =>
    match c with
    | CallConnect _ _ _ _ _ => Ok (VDict [("success", VBool true)])
    | CallGet _ _ => Err (RemoteError "unreachable")
    end.

(** login data that still holds a member of [AuthType], and no endpoint *)
Definition enum_login : dict :=
  [ ("username", VStr "user"); ("password", VStr "pw");
    ("auth_type", VAuthType 0) ].

(** a store whose cache knows the device, for a manager without any data *)
Definition cached_state : state :=
  {| heap := fun _ => [];
     next := 2;
     _cache := [ ("fingerprint",
                  {| api := Some (@open_api hass_const []);
                     login := 1;
                     credentials := [("DC:23:50:CF:CB:6A", complete_hint)] |}) ];
     calls := [] |}.

(** a hint that holds every device key, with nothing behind the keys *)
Definition blank_hint : dict :=
  [ ("uuid", VStr ""); ("local_key", VStr ""); ("device_id", VStr "");
    ("category", VStr ""); ("product_id", VStr ""); ("device_name", VStr "");
    ("product_name", VStr ""); ("product_model", VStr "") ].

(** a record of the list-devices response *)
Definition device (id : string) : dict :=
  [ ("id", VStr id); ("uuid", VStr ("uuid-" ++ id));
    ("local_key", VStr ("key-" ++ id)); ("category", VStr "dj");
    ("product_id", VStr "u0x2pqrs"); ("name", VStr ("Lamp " ++ id));
    ("model", VStr "B1"); ("product_name", VStr "Bulb") ].

(** the result of a specification response *)
Definition lamp_spec : dict :=
  [ ("category", VStr "dj");
    ("functions", VList [VDict [("code", VStr "switch_led")]]);
    ("status", VList [VDict [("code", VStr "switch_led")]]) ].

(** the raw hardware address in the factory info of a device *)
Definition raw_mac (id : string) : string := "dc2350cfcb0" ++ id.

(** a client that knows the devices a, b and c and loses the
    specification of b *)
Definition three_devices : remote :=
  fun _ c =>
    match c with
    | CallConnect _ _ _ _ _ => Ok (VDict [("success", VBool true)])
    | CallGet _ ReqDevices =>
        Ok (@devices_response hass_const [device "a"; device "b"; device "c"])
    | CallGet _ (ReqFactoryInfo (VStr id)) =>
        Ok (@factory_info_response hass_const (raw_mac id))
    | CallGet _ (ReqSpecification (VStr id)) =>
        if String.eqb id "b" then Err (RemoteError "timeout")
        else Ok (@spec_response hass_const lamp_spec)
    | CallGet _ _ => Err (RemoteError "not found")
    end.

(** a store with a session for the fingerprint and nothing fetched yet *)
Definition session_state : state :=
  {| heap := fun _ => [];
     next := 2;
     _cache := [ ("fingerprint",
                  {| api := Some (@open_api hass_const login_fields_1);
                     login := 1;
                     credentials := [] |}) ];
     calls := [] |}.

(** the login data of [prototype.py]: no [auth_type], no country code, no
    application type *)
Definition prototype_config : dict :=
  [ ("endpoint", VStr "https://openapi.tuyaus.com");
    ("access_id", VStr "access-id"); ("access_secret", VStr "access-secret");
    ("username", VStr "user@example.org"); ("password", VStr "password") ].

(** the cache key of [login_fields_1] *)
Definition fingerprint_1 : string :=
  match @_get_cache_key hass_const login_fields_1 with
  | Ok k => k
  | Err _ => ""
  end.

(** an item left by an earlier session, and a store that holds it under
    the key of the login the manager is about to repeat *)
Definition stale_item : TuyaCloudCacheItem :=
  {| api := None; login := 7;
     credentials := [("DC:23:50:CF:CB:6A", complete_hint)] |}.

Definition relogin_state : state :=
  {| heap := fun l => if Nat.eqb l 0 then login_fields_1 else [];
     next := 8;
     _cache := [ ("other", {| api := None; login := 7; credentials := [] |});
                 (fingerprint_1, stale_item) ];
     calls := [] |}.

(** the data of a configuration entry of the account at [endpoint], and
    its cache key *)
Definition context_of (endpoint : string) : dict :=
  [ ("endpoint", VStr endpoint); ("access_id", VStr "id");
    ("access_secret", VStr "secret"); ("auth_type", VInt 0);
    ("username", VStr "user"); ("password", VStr "pw");
    ("country_code", VStr "55"); ("tuya_app_type", VStr "tuyaSmart") ].

Definition fingerprint_of (endpoint : string) : string :=
  match @_get_cache_key hass_const (context_of endpoint) with
  | Ok k => k
  | Err _ => ""
  end.

(** a client whose list-devices request fails for the sessions of the
    first endpoint and that knows the device a for every other session *)
Definition first_list_fails : remote :=
  fun _ c =>
    match c with
    | CallConnect _ _ _ _ _ => Ok (VDict [("success", VBool true)])
    | CallGet session ReqDevices =>
        match api_endpoint session with
        | VStr e =>
            if String.eqb e "https://first" then Err (RemoteError "timeout")
            else Ok (@devices_response hass_const [device "a"])
        | _ => Err (RemoteError "no endpoint")
        end
    | CallGet _ (ReqFactoryInfo (VStr id)) =>
        Ok (@factory_info_response hass_const (raw_mac id))
    | CallGet _ (ReqSpecification _) => Ok (@spec_response hass_const lamp_spec)
    | CallGet _ _ => Err (RemoteError "not found")
    end.

(** the constants of the configuration flow, with two of the countries;
    the values of the members of [AuthType] are those of [tuya_iot] *)
Definition hass_flow : FlowConst :=
  {| TUYA_COUNTRIES :=
       [ {| name := "Brazil"; country_code := "55";
            endpoint := "https://openapi.tuyaus.com" |};
         {| name := "Germany"; country_code := "49";
            endpoint := "https://openapi.tuyaeu.com" |} ];
     TUYA_SMART_APP := "tuyaSmart";
     SMARTLIFE_APP := "smartlife";
     TUYA_RESPONSE_CODE := "code";
     TUYA_RESPONSE_MSG := "msg";
     SMART_HOME := 0;
     CUSTOM := 1 |}.

(** what the user typed into the login form *)
Definition form_input (country : string) : dict :=
  [ ("country_code", VStr country); ("access_id", VStr "id");
    ("access_secret", VStr "secret"); ("username", VStr "user");
    ("password", VStr "pw") ].

(** the store of a flow that has just started: its [errors] under
    reference 0, its [placeholders] under reference 1 and the data of its
    manager under reference 2, all empty *)
Definition flow_state : state :=
  {| heap := fun _ => []; next := 3; _cache := []; calls := [] |}.

(** the answer of the cloud to a login it refuses *)
Definition refusal : pyval :=
  VDict [("success", VBool false); ("code", VInt 1004); ("msg", VStr "sign invalid")].

(** a client that accepts the logins of the Smart Life application only *)
Definition smartlife_only : remote :=
  fun _ c =>
    match c with
    | CallConnect _ _ _ _ app =>
        if pyval_is_str "smartlife" app then Ok (VDict [("success", VBool true)])
        else Ok refusal
    | CallGet _ _ => Err (RemoteError "unreachable")
    end.

(** a client that refuses every login *)
Definition refuse : remote :=
  fun _ c =>
    match c with
    | CallConnect _ _ _ _ _ => Ok refusal
    | CallGet _ _ => Err (RemoteError "unreachable")
    end.

(** a client whose list-devices response has no result *)
Definition no_devices : remote :=
  fun _ c =>
    match c with
    | CallConnect _ _ _ _ _ => Ok (VDict [("success", VBool true)])
    | CallGet _ ReqDevices => Ok (VDict [("success", VBool true)])
    | CallGet _ _ => Err (RemoteError "not found")
    end.

(** a client whose list of devices starts with a string *)
Definition malformed_list : remote :=
  fun _ c =>
    match c with
    | CallConnect _ _ _ _ _ => Ok (VDict [("success", VBool true)])
    | CallGet _ ReqDevices =>
        Ok (VDict [("success", VBool true);
                   ("result", VList [VStr "eb4e6cocypjwgnxo"; VDict (device "a")])])
    | CallGet _ _ => Err (RemoteError "not found")
    end.

(** a client whose factory info lacks the hardware address *)
Definition no_mac : remote :=
  fun _ c =>
    match c with
    | CallConnect _ _ _ _ _ => Ok (VDict [("success", VBool true)])
    | CallGet _ (ReqFactoryInfo _) =>
        Ok (VDict [("success", VBool true);
                   ("result", VList [VDict [("id", VStr "a")]])])
    | CallGet _ _ => Err (RemoteError "not found")
    end.

(** a store whose cache holds one item with its login under reference 1,
    for a manager whose data, under reference 0, is an address and a stale
    user name *)
Definition stale_data : dict :=
  [ ("address", VStr "DC:23:50:CF:CB:6A"); ("username", VStr "former") ].

Definition login_cached_state : state :=
  {| heap := fun l => if Nat.eqb l 0 then stale_data
                      else if Nat.eqb l 1 then login_fields_1 else [];
     next := 2;
     _cache := [ (fingerprint_1, {| api := None; login := 1; credentials := [] |}) ];
     calls := [] |}.

(** manager data with a full login whose auth type is still a member of
    [AuthType] *)
Definition enum_full_login : dict :=
  [ ("endpoint", VStr "https://openapi.tuyaus.com");
    ("access_id", VStr "id"); ("access_secret", VStr "secret");
    ("auth_type", VAuthType 0); ("username", VStr "user"); ("password", VStr "pw");
    ("country_code", VStr "55"); ("tuya_app_type", VStr "tuyaSmart") ].

(** the options of a device that was set up before, with the functions
    and the status range of its specification *)
Definition full_hint : dict :=
  (complete_hint
   ++ [ ("functions", VList [VDict [("code", VStr "switch_led")]]);
        ("status_range", VList [VDict [("code", VStr "bright_value")]]) ])%list.

(** two managers with the same login, under references 0 and 1, before
    anything was cached *)
Definition two_managers_state : state :=
  {| heap := fun l => if Nat.eqb l 0 then login_fields_1
                      else if Nat.eqb l 1 then login_fields_2 else [];
     next := 2; _cache := []; calls := [] |}.

(** ** Hardware addresses *)

Lemma format_mac_mac_of (raw : string) : format_mac (VStr raw) = Ok (mac_of raw).
Proof. reflexivity. Qed.

Lemma upper_hex_of_hex c : is_hex c = true -> is_upper_hex (upper_ascii c) = true.
Proof.
  destruct c as [[] [] [] [] [] [] [] []]; vm_compute; congruence.
Qed.

Lemma upper_hex_not_colon c :
  is_hex c = true -> Ascii.eqb (upper_ascii c) colon = false.
Proof.
  destruct c as [[] [] [] [] [] [] [] []]; vm_compute; congruence.
Qed.

Lemma upper_ascii_idem c : upper_ascii (upper_ascii c) = upper_ascii c.
Proof.
  destruct c as [[] [] [] [] [] [] [] []]; vm_compute; reflexivity.
Qed.

Lemma string_of_length_12 (s : string) :
  String.length s = 12 ->
  exists a b c d e f g h i j k l,
    s = String a (String b (String c (String d (String e (String f
       (String g (String h (String i (String j (String k (String l
          EmptyString))))))))))).
Proof.
  intros H.
  do 12 (destruct s as [|? s]; [discriminate H|]).
  destruct s; [|discriminate H].
  repeat eexists.
Qed.

(** C6. For a raw hardware address of twelve hexadecimal characters the
    address computed during the detail fetch has 17 characters, consists of
    six groups of two uppercase hexadecimal digits separated by colons, is
    left unchanged by [upper], spells the uppercased input once the colons
    are removed, and is a function of the input alone. *)
Theorem format_mac_normalised (s : string) :
  String.length s = 12 ->
  all_hex s = true ->
  exists mac,
    format_mac (VStr s) = Ok mac
    /\ String.length mac = 17
    /\ mac_shape 0 mac = true
    /\ upper mac = mac
    /\ strip_colons mac = upper s
    /\ (forall raw, raw = VStr s -> format_mac raw = Ok mac).
Proof.
  intros Hlen Hhex.
  destruct (string_of_length_12 s Hlen)
    as (a & b & c & d & e & f & g & h & i & j & k & l & ->).
  cbn [all_hex] in Hhex.
  repeat (apply andb_true_iff in Hhex; destruct Hhex as [? Hhex]).
  eexists. split; [reflexivity|].
  split; [reflexivity|].
  split.
  { cbn -[is_upper_hex upper_ascii colon Ascii.eqb].
    change (Ascii.eqb (upper_ascii ":") colon) with true.
    rewrite !upper_hex_of_hex by assumption. reflexivity. }
  split.
  { cbn -[upper_ascii]. rewrite !upper_ascii_idem. reflexivity. }
  split.
  { cbn -[upper_ascii colon Ascii.eqb].
    change (Ascii.eqb (upper_ascii ":") colon) with true.
    rewrite !upper_hex_not_colon by assumption. reflexivity. }
  intros raw ->. reflexivity.
Qed.

Lemma format_mac_normalised_witness :
  exists mac,
    format_mac (VStr "dc2350cfcb6a") = Ok mac
    /\ String.length mac = 17
    /\ mac_shape 0 mac = true
    /\ upper mac = mac
    /\ strip_colons mac = upper "dc2350cfcb6a"
    /\ (forall raw, raw = VStr "dc2350cfcb6a" -> format_mac raw = Ok mac).
Proof.
  apply (format_mac_normalised "dc2350cfcb6a"); reflexivity.
Defined.

(** ** The login fingerprint *)

Section Fingerprint.
Context {K : Const}.

(** C5. Two configuration dictionaries whose [get] agrees on every login
    key have the same cache key, whatever the order of their keys and
    whatever other keys they hold. *)
Theorem cache_key_deterministic (d1 d2 : dict) :
  (forall key, In key CONF_TUYA_LOGIN_KEYS ->
               dict_get d1 key VNone = dict_get d2 key VNone) ->
  _get_cache_key d1 = _get_cache_key d2.
Proof.
  intros Hagree. unfold _get_cache_key, key_dict.
  do 3 f_equal.
  apply map_ext_in. intros key Hin. now rewrite (Hagree key Hin).
Qed.

End Fingerprint.

Lemma cache_key_deterministic_witness :
  @_get_cache_key hass_const login_fields_1 = @_get_cache_key hass_const login_fields_2.
Proof.
  apply (@cache_key_deterministic hass_const login_fields_1 login_fields_2).
  intros key Hin. cbn in Hin.
  repeat (destruct Hin as [<- | Hin]; [reflexivity|]).
  contradiction.
Defined.

(** ** Reasoning about computations *)

Lemma bind_inv {A B} (m : M A) (k : A -> M B) s s' r :
  bind m k s = (s', r) ->
  (exists a s1, m s = (s1, Ok a) /\ k a s1 = (s', r))
  \/ (exists e, m s = (s', Err e) /\ r = Err e).
Proof.
  unfold bind. destruct (m s) as [s1 [a|e]]; intros H.
  - left. eauto.
  - right. inversion H; subst. eauto.
Qed.

Lemma bind_ok {A B} (m : M A) (k : A -> M B) s s1 a :
  m s = (s1, Ok a) -> bind m k s = k a s1.
Proof. unfold bind. now intros ->. Qed.

Lemma bind_err {A B} (m : M A) (k : A -> M B) s s1 e :
  m s = (s1, Err e) -> bind m k s = (s1, Err e).
Proof. unfold bind. now intros ->. Qed.

Section Preserves.
Variable P : state -> state -> Prop.
Hypothesis P_refl : forall s, P s s.
Hypothesis P_trans : forall s1 s2 s3, P s1 s2 -> P s2 s3 -> P s1 s3.

Lemma preserves_ret {A} (a : A) : preserves P (ret a).
Proof. intros s. apply P_refl. Qed.

Lemma preserves_raise {A} e : preserves P (@raise A e).
Proof. intros s. apply P_refl. Qed.

Lemma preserves_lift {A} (r : result A) : preserves P (lift r).
Proof. intros s. apply P_refl. Qed.

Lemma preserves_read l : preserves P (read l).
Proof. intros s. apply P_refl. Qed.

Lemma preserves_get_cache : preserves P get_cache.
Proof. intros s. apply P_refl. Qed.

Lemma preserves_cache_get key : preserves P (cache_get key).
Proof. intros s. apply P_refl. Qed.

Lemma preserves_bind {A B} (m : M A) (k : A -> M B) :
  preserves P m -> (forall a, preserves P (k a)) -> preserves P (bind m k).
Proof.
  intros Hm Hk s. unfold bind. specialize (Hm s).
  destruct (m s) as [s1 [a|e]]; cbn in *.
  - eapply P_trans; [exact Hm | apply Hk].
  - exact Hm.
Qed.

Lemma preserves_try {A} (m : M A) (h : exn -> M A) :
  preserves P m -> (forall e, preserves P (h e)) -> preserves P (try_except m h).
Proof.
  intros Hm Hh s. unfold try_except. specialize (Hm s).
  destruct (m s) as [s1 [a|e]]; cbn in *.
  - exact Hm.
  - eapply P_trans; [exact Hm | apply Hh].
Qed.

Lemma preserves_for_each {A} (body : A -> M unit) (l : list A) :
  (forall x, preserves P (body x)) -> preserves P (for_each body l).
Proof.
  intros Hb. induction l as [|x l IH]; cbn [for_each].
  - apply preserves_ret.
  - apply preserves_bind; [apply Hb | intros _; exact IH].
Qed.

Lemma preserves_the_item key : preserves P (the_item key).
Proof.
  unfold the_item. apply preserves_bind; [apply preserves_cache_get|].
  intros [it|]; [apply preserves_ret | apply preserves_raise].
Qed.

End Preserves.

(** Breaks a computation into its primitive steps; what is left are the
    steps that change the store. *)
Ltac preserves_step :=
  match goal with
  | |- preserves _ (bind _ _) =>
      apply preserves_bind; [solve [eauto] | | intros ?]
  | |- preserves _ (try_except _ _) =>
      apply preserves_try; [solve [eauto] | | intros ?]
  | |- preserves _ (for_each _ _) =>
      apply preserves_for_each; [solve [auto] | solve [eauto] | intros ?]
  | |- preserves _ (ret _) => apply preserves_ret; solve [auto]
  | |- preserves _ (raise _) => apply preserves_raise; solve [auto]
  | |- preserves _ (lift _) => apply preserves_lift; solve [auto]
  | |- preserves _ (read _) => apply preserves_read; solve [auto]
  | |- preserves _ get_cache => apply preserves_get_cache; solve [auto]
  | |- preserves _ (cache_get _) => apply preserves_cache_get; solve [auto]
  | |- preserves _ (the_item _) => apply preserves_the_item; solve [auto | eauto]
  | |- preserves _ (if ?b then _ else _) => destruct b
  | |- preserves _ (match ?x with _ => _ end) => destruct x
  end.

(** *** What the operations leave alone *)

Lemma same_heap_refl s : same_heap s s.
Proof. intros l. reflexivity. Qed.
Lemma same_heap_trans s1 s2 s3 : same_heap s1 s2 -> same_heap s2 s3 -> same_heap s1 s3.
Proof. intros H1 H2 l. now rewrite H2, H1. Qed.

Lemma same_cache_refl s : same_cache s s.
Proof. reflexivity. Qed.
Lemma same_cache_trans s1 s2 s3 : same_cache s1 s2 -> same_cache s2 s3 -> same_cache s1 s3.
Proof. unfold same_cache. congruence. Qed.

Lemma same_logins_refl s : same_logins s s.
Proof. reflexivity. Qed.
Lemma same_logins_trans s1 s2 s3 :
  same_logins s1 s2 -> same_logins s2 s3 -> same_logins s1 s3.
Proof. unfold same_logins. congruence. Qed.

#[local] Hint Resolve same_heap_refl same_heap_trans same_cache_refl same_cache_trans
  same_logins_refl same_logins_trans : core.

Lemma logins_app log c : logins (log ++ [c])%list = logins log + (if is_connect c then 1 else 0).
Proof.
  unfold logins. rewrite filter_app, length_app. cbn.
  destruct (is_connect c); reflexivity.
Qed.

Lemma same_heap_put_cache key item : preserves same_heap (put_cache key item).
Proof. intros s l. reflexivity. Qed.

Lemma same_heap_call_remote R c : preserves same_heap (call_remote R c).
Proof. intros s l. reflexivity. Qed.

Lemma same_cache_write l d : preserves same_cache (write l d).
Proof. intros s. reflexivity. Qed.

Lemma same_cache_call_remote R c : preserves same_cache (call_remote R c).
Proof. intros s. reflexivity. Qed.

Lemma same_logins_write l d : preserves same_logins (write l d).
Proof. intros s. reflexivity. Qed.

Lemma same_logins_alloc : preserves same_logins alloc.
Proof. intros s. reflexivity. Qed.

Lemma same_logins_put_cache key item : preserves same_logins (put_cache key item).
Proof. intros s. reflexivity. Qed.

Lemma same_logins_get R session req :
  preserves same_logins (call_remote R (CallGet session req)).
Proof.
  intros s. unfold same_logins, call_remote. cbn [fst calls].
  rewrite logins_app. cbn [is_connect]. lia.
Qed.

#[local] Hint Resolve same_heap_put_cache same_heap_call_remote same_cache_write
  same_cache_call_remote same_logins_write same_logins_alloc same_logins_put_cache
  same_logins_get : core.

Lemma update_from_same_cache target source : preserves same_cache (update_from target source).
Proof. unfold update_from. repeat preserves_step; auto. Qed.

Lemma update_from_same_logins target source :
  preserves same_logins (update_from target source).
Proof. unfold update_from. repeat preserves_step; auto. Qed.

#[local] Hint Resolve update_from_same_cache update_from_same_logins : core.

Section Frames.
Context {K : Const}.
Variable R : remote.

Lemma set_entry_same_heap key mac entry : preserves same_heap (set_entry key mac entry).
Proof. unfold set_entry. repeat preserves_step; auto. Qed.

Lemma set_entry_same_logins key mac entry : preserves same_logins (set_entry key mac entry).
Proof. unfold set_entry. repeat preserves_step; auto. Qed.

Lemma set_entry_field_same_heap key mac field v :
  preserves same_heap (set_entry_field key mac field v).
Proof.
  unfold set_entry_field. repeat preserves_step; auto using set_entry_same_heap.
Qed.

Lemma set_entry_field_same_logins key mac field v :
  preserves same_logins (set_entry_field key mac field v).
Proof.
  unfold set_entry_field. repeat preserves_step; auto using set_entry_same_logins.
Qed.

Hint Resolve set_entry_same_heap set_entry_same_logins set_entry_field_same_heap
  set_entry_field_same_logins : core.

Lemma fill_device_same_heap key session device :
  preserves same_heap (fill_device R key session device).
Proof. unfold fill_device. repeat preserves_step; auto. Qed.

Lemma fill_device_same_logins key session device :
  preserves same_logins (fill_device R key session device).
Proof. unfold fill_device. repeat preserves_step; auto. Qed.

Hint Resolve fill_device_same_heap fill_device_same_logins : core.

Lemma fill_cache_item_same_heap key : preserves same_heap (_fill_cache_item R key).
Proof. unfold _fill_cache_item. repeat preserves_step; auto. Qed.

Lemma fill_cache_item_same_logins key : preserves same_logins (_fill_cache_item R key).
Proof. unfold _fill_cache_item. repeat preserves_step; auto. Qed.

End Frames.

(** ** The fast path of [get_device_credentials] *)

Section FastPath.
Context {K : Const}.
Variable R : remote.

Lemma has_credentials_lookup (d : dict) (key : string) :
  _has_credentials d = true ->
  In key CONF_TUYA_DEVICE_KEYS ->
  exists v, lookup d key = Some v /\ v <> VNone
            /\ forall default, dict_get d key default = v.
Proof.
  intros H Hin. unfold _has_credentials in H.
  rewrite forallb_forall in H. specialize (H key Hin).
  unfold dict_get in *. destruct (lookup d key) as [v|]; [|discriminate H].
  exists v. repeat split; auto.
  intros ->. discriminate H.
Qed.

Lemma has_credentials_nonempty (d : dict) :
  _has_credentials d = true -> Nat.eqb (List.length d) 0 = false.
Proof.
  intros H. destruct d; [discriminate H | reflexivity].
Qed.

(** C2. When the manager's data holds a value other than [None] for every
    device-credential key, [get_device_credentials] without [force_update]
    returns a credential whose ten fields are what the data holds: the
    values under the eight device-credential keys, and the functions and
    the status range the data holds, or [[]] for the one it does not
    hold; and the client is not called at all. *)
Theorem complete_hint_fast_path (self : loc) (address : string) (save_data : bool)
    (s : state) :
  _has_credentials (heap s self) = true ->
  exists s' c,
    get_device_credentials R self address false save_data s = (s', Ok (Some c))
    /\ calls s' = calls s
    /\ lookup (heap s self) CONF_UUID = Some (uuid c)
    /\ lookup (heap s self) CONF_LOCAL_KEY = Some (local_key c)
    /\ lookup (heap s self) CONF_DEVICE_ID = Some (device_id c)
    /\ lookup (heap s self) CONF_CATEGORY = Some (category c)
    /\ lookup (heap s self) CONF_PRODUCT_ID = Some (product_id c)
    /\ lookup (heap s self) CONF_DEVICE_NAME = Some (device_name c)
    /\ lookup (heap s self) CONF_PRODUCT_NAME = Some (product_name c)
    /\ lookup (heap s self) CONF_PRODUCT_MODEL = Some (product_model c)
    /\ functions c = match lookup (heap s self) CONF_FUNCTIONS with
                     | Some v => v
                     | None => VList []
                     end
    /\ status_range c = match lookup (heap s self) CONF_STATUS_RANGE with
                        | Some v => v
                        | None => VList []
                        end.
Proof.
  intros H.
  assert (Hkey : forall key, In key CONF_TUYA_DEVICE_KEYS ->
                 lookup (heap s self) key = Some (dict_get (heap s self) key (VStr ""))).
  { intros key Hin.
    destruct (has_credentials_lookup _ key H Hin) as (v & Hv & _ & Hget).
    now rewrite Hget. }
  pose proof (has_credentials_nonempty _ H) as Hne.
  exists (fst (get_device_credentials R self address false save_data s)),
         (credentials_of (heap s self)).
  split; [|split].
  - unfold get_device_credentials, find_credentials.
    cbv [bind read ret fst]. rewrite H. cbn [negb andb]. rewrite Hne. cbn [negb].
    destruct save_data; reflexivity.
  - unfold get_device_credentials, find_credentials.
    cbv [bind read ret fst]. rewrite H. cbn [negb andb]. rewrite Hne. cbn [negb].
    destruct save_data; reflexivity.
  - cbn [credentials_of uuid local_key device_id category product_id device_name
         product_name product_model functions status_range].
    repeat split; try reflexivity; apply Hkey; cbn; auto 10.
Qed.

End FastPath.

Lemma complete_hint_fast_path_witness :
  exists s' c,
    @get_device_credentials hass_const offline 0 "DC:23:50:CF:CB:6A" false true
      (hint_state full_hint) = (s', Ok (Some c))
    /\ calls s' = []
    /\ uuid c = VStr "tuya5d3f1c"
    /\ functions c = VList [VDict [("code", VStr "switch_led")]]
    /\ status_range c = VList [VDict [("code", VStr "bright_value")]].
Proof.
  destruct (@complete_hint_fast_path hass_const offline 0 "DC:23:50:CF:CB:6A" true
              (hint_state full_hint) eq_refl)
    as (s' & c & Hrun & Hcalls & Huuid & _ & _ & _ & _ & _ & _ & _ & Hf & Hr).
  exists s', c. repeat split; try assumption.
  cbn in Huuid. congruence.
Defined.

(** ** Effects of [_login] *)

Lemma lookup_assign {V} (m : list (string * V)) (k k' : string) (v : V) :
  lookup (assign m k v) k' = if String.eqb k k' then Some v else lookup m k'.
Proof.
  induction m as [|[k0 v0] m IH]; cbn.
  - reflexivity.
  - destruct (String.eqb k0 k) eqn:E0; cbn.
    + apply String.eqb_eq in E0. subst k0.
      destruct (String.eqb k k'); reflexivity.
    + rewrite IH. destruct (String.eqb k0 k') eqn:E1; [|reflexivity].
      apply String.eqb_eq in E1. subst k0.
      rewrite String.eqb_sym in E0. now rewrite E0.
Qed.

Lemma lookup_assign_same {V} (m : list (string * V)) (k : string) (v : V) :
  lookup (assign m k v) k = Some v.
Proof. rewrite lookup_assign. now rewrite String.eqb_refl. Qed.

(** Unfolds the primitive steps of a computation. *)
Ltac run :=
  cbv [bind ret lift raise read write try_except call_remote cache_get get_cache
       put_cache].

Ltac case_split :=
  match goal with
  | |- context [match ?x with _ => _ end] =>
      lazymatch x with
      | context [match _ with _ => _ end] => fail
      | _ => destruct x eqn:?
      end
  end.

Section LoginEffects.
Context {K : Const}.
Variable R : remote.

Lemma data_normalised_refl self s : data_normalised self s s.
Proof. now left. Qed.

Lemma data_normalised_trans self s1 s2 s3 :
  data_normalised self s1 s2 -> data_normalised self s2 s3 -> data_normalised self s1 s3.
Proof.
  intros [H1 | (v & Hv & H1)] [H2 | (w & Hw & H2)].
  - left. congruence.
  - right. exists w. rewrite H1 in Hw, H2. auto.
  - right. exists v. split; [assumption | congruence].
  - rewrite H1, lookup_assign_same in Hw. discriminate Hw.
Qed.

Lemma same_heap_data_normalised {A} self (m : M A) :
  preserves same_heap m -> preserves (data_normalised self) m.
Proof. intros H s. left. apply H. Qed.

Lemma login_data_normalised (data : loc) (add_to_cache : bool) :
  preserves (data_normalised data) (_login R data add_to_cache).
Proof.
  intros s. unfold _login, dict_item. run.
  repeat case_split; cbn; try (left; reflexivity);
    try (left; now rewrite Nat.eqb_refl);
    right; eexists; (split; [eassumption | cbn; now rewrite Nat.eqb_refl]).
Qed.

(** [_login] calls the client's [connect] once, unless the data is empty. *)
Lemma login_logins (data : loc) (add_to_cache : bool) (s : state) :
  logins (calls (fst (_login R data add_to_cache s)))
  = logins (calls s) + (if Nat.eqb (List.length (heap s data)) 0 then 0 else 1).
Proof.
  unfold _login. run.
  repeat case_split; cbn [fst calls set_heap set_cache];
    rewrite ?logins_app; cbn [is_connect]; lia.
Qed.

(** A connect that raises is a failed login: [_login] returns [{}]. *)
Lemma login_catches (data : loc) (add_to_cache : bool) (s : state) (e : exn) :
  (forall c, is_connect c = true -> R (calls s) c = Err e) ->
  snd (_login R data add_to_cache s) = Ok (VDict []).
Proof.
  intros HR. unfold _login. run.
  destruct (Nat.eqb (List.length (heap s data)) 0); [reflexivity|].
  now rewrite HR.
Qed.

End LoginEffects.

(** ** What [get_device_credentials] does to the manager's data and how
    often it logs in *)

Section Resolver.
Context {K : Const}.
Variable R : remote.

Hint Resolve data_normalised_refl data_normalised_trans : core.

Lemma find_credentials_data_normalised self address force_update :
  preserves (data_normalised self) (find_credentials R self address force_update).
Proof.
  unfold find_credentials.
  repeat preserves_step;
    auto using login_data_normalised, same_heap_data_normalised,
      fill_cache_item_same_heap.
Qed.

(** C10, as the code has it. With [save_data] false the manager's data is
    the same dictionary after [get_device_credentials] as before, whether
    the call returns a credential, returns [None] or raises, except for one
    change that a successful login makes: a member of [AuthType] stored
    under [CONF_AUTH_TYPE] is replaced by its integer value. *)
Theorem data_kept_without_save_data (self : loc) (address : string)
    (force_update : bool) (s : state) :
  let s' := fst (get_device_credentials R self address force_update false s) in
  heap s' self = heap s self
  \/ exists v, lookup (heap s self) CONF_AUTH_TYPE = Some (VAuthType v)
               /\ heap s' self = assign (heap s self) CONF_AUTH_TYPE (VInt v).
Proof.
  revert s.
  change (preserves (data_normalised self)
            (get_device_credentials R self address force_update false)).
  unfold get_device_credentials.
  apply preserves_bind; [eauto | apply find_credentials_data_normalised |].
  intros [item credentials].
  repeat preserves_step.
Qed.

Lemma bind_same_logins {A B} (m : M A) (k : A -> M B) s :
  (forall a, preserves same_logins (k a)) ->
  logins (calls (fst (bind m k s))) = logins (calls (fst (m s))).
Proof.
  intros Hk. unfold bind. destruct (m s) as [s1 [a|e]]; cbn [fst].
  - apply Hk.
  - reflexivity.
Qed.

Lemma find_credentials_forced_logins (self : loc) (address : string) (s : state) :
  Nat.eqb (List.length (heap s self)) 0 = false ->
  (_has_login (heap s self) = true -> exists k, _get_cache_key (heap s self) = Ok k) ->
  logins (calls (fst (find_credentials R self address true s))) = logins (calls s) + 1.
Proof.
  intros Hne Hkey. unfold find_credentials.
  rewrite (bind_ok (read self) _ s s (heap s self) eq_refl).
  cbn [negb andb].
  assert (Hck : exists cache_key,
             (if _has_login (heap s self)
              then k <- lift (_get_cache_key (heap s self)) ;; ret (Some k)
              else c <- get_cache ;; ret (find_by_address c address)) s
             = (s, Ok cache_key)).
  { destruct (_has_login (heap s self)).
    - destruct (Hkey eq_refl) as [k Hk]. exists (Some k).
      unfold bind, lift, ret. now rewrite Hk.
    - eexists. reflexivity. }
  destruct Hck as [cache_key Hck].
  rewrite (bind_ok _ _ s s cache_key Hck).
  assert (Hfound : exists found,
             (if key_truthy cache_key then cache_get cache_key else ret None) s
             = (s, Ok found)).
  { destruct (key_truthy cache_key); eexists; reflexivity. }
  destruct Hfound as [found Hfound].
  rewrite (bind_ok _ _ s s found Hfound).
  cbv zeta. rewrite orb_true_r.
  rewrite bind_same_logins.
  2:{ intros item. repeat preserves_step. }
  rewrite bind_same_logins.
  2:{ intros response.
      repeat preserves_step; auto using fill_cache_item_same_logins. }
  rewrite login_logins, Hne. reflexivity.
Qed.

(** C8, as the code has it. With [force_update] the cached short-circuit is
    not taken: when the manager's data is not empty and, if it holds a full
    login, its cache key can be computed, [get_device_credentials] calls the
    client's [connect] exactly once, whatever credential the data or the
    cache already holds and however the call ends. *)
Theorem force_update_logs_in_once (self : loc) (address : string) (save_data : bool)
    (s : state) :
  Nat.eqb (List.length (heap s self)) 0 = false ->
  (_has_login (heap s self) = true -> exists k, _get_cache_key (heap s self) = Ok k) ->
  logins (calls (fst (get_device_credentials R self address true save_data s)))
  = logins (calls s) + 1.
Proof.
  intros Hne Hkey. unfold get_device_credentials.
  rewrite bind_same_logins.
  - now apply find_credentials_forced_logins.
  - intros [item credentials]. repeat preserves_step; auto.
Qed.

End Resolver.

(** ** Concrete runs of the resolver *)

(** C10 as stated fails: with [save_data] false a successful login
    rewrites the manager's data. *)
Lemma data_changed_without_save_data :
  ~ (forall (K : Const) (R : remote) (self : loc) (address : string)
            (force_update : bool) (s : state),
       heap (fst (@get_device_credentials K R self address force_update false s)) self
       = heap s self).
Proof.
  intros H.
  specialize (H hass_const accept 0 "DC:23:50:CF:CB:6A" false (hint_state enum_login)).
  vm_compute in H. discriminate H.
Qed.

(** C8 as stated fails: with empty data [login] returns before it reaches
    the client, so a forced update of a cached device logs in zero times. *)
Lemma force_update_without_login :
  ~ (forall (K : Const) (R : remote) (self : loc) (address : string)
            (save_data : bool) (s : state),
       known_complete s self address ->
       logins (calls (fst (@get_device_credentials K R self address true save_data s)))
       = logins (calls s) + 1).
Proof.
  intros H.
  specialize (H hass_const accept 0 "DC:23:50:CF:CB:6A" false cached_state).
  assert (Hk : @known_complete hass_const cached_state 0 "DC:23:50:CF:CB:6A").
  { right. exists "fingerprint".
    eexists. exists complete_hint. repeat split; reflexivity. }
  specialize (H Hk). vm_compute in H. discriminate H.
Qed.

Lemma force_update_logs_in_once_witness :
  logins (calls (fst (@get_device_credentials hass_const accept 0 "DC:23:50:CF:CB:6A"
                        true false (hint_state login_fields_2))))
  = 1.
Proof.
  apply (@force_update_logs_in_once hass_const accept 0 "DC:23:50:CF:CB:6A" false
           (hint_state login_fields_2)).
  - reflexivity.
  - intros _. eexists. reflexivity.
Defined.

(** ** Where a returned credential comes from *)

Section Origin.
Context {K : Const}.
Variable R : remote.

Lemma find_credentials_found self address force_update s s1 item cred :
  find_credentials R self address force_update s = (s1, Ok (item, Some cred)) ->
  (force_update = false /\ _has_credentials (heap s self) = true /\ cred = heap s self)
  \/ exists key it,
       lookup (_cache s1) key = Some it /\ lookup (credentials it) address = Some cred.
Proof.
  unfold find_credentials. intros H.
  apply bind_inv in H as [(d & s0 & Hread & H) | (e & _ & He)]; [|discriminate He].
  inversion Hread; subst s0 d; clear Hread.
  destruct (negb force_update && _has_credentials (heap s self)) eqn:Hfast.
  - inversion H; subst. apply andb_true_iff in Hfast as [Hf Hc].
    left. destruct force_update; [discriminate Hf | auto].
  - right.
    apply bind_inv in H as [(cache_key & s2 & _ & H) | (e & _ & He)]; [|discriminate He].
    apply bind_inv in H as [(found & s3 & _ & H) | (e & _ & He)]; [|discriminate He].
    cbv zeta in H.
    apply bind_inv in H as [(it & s4 & _ & H) | (e & _ & He)]; [|discriminate He].
    destruct it as [k|]; [|inversion H].
    apply bind_inv in H as [(i & s5 & Hitem & H) | (e & _ & He)]; [|discriminate He].
    inversion H; subst. clear H.
    unfold the_item, bind, cache_get, ret, raise in Hitem.
    destruct (lookup (_cache s4) k) as [it|] eqn:Hk; inversion Hitem; subst.
    exists k, i. split; [assumption | reflexivity].
Qed.

(** C1, as the code has it. A credential that [get_device_credentials]
    returns is read off a non-empty credential dictionary with the defaults
    of [credentials_of]: either the manager's own data, which then holds a
    value other than [None] under every device key, so that the five
    required fields of the result are not [None]; or the entry the cache
    holds for the address when the call returns.  Nothing on this path
    checks that the five fields are non-empty; that check is
    [check_and_create_device_credentials], which yields the credential when
    they are and [None] when they are not. *)
Theorem returned_credentials_origin (self : loc) (address : string)
    (force_update save_data : bool) (s s' : state) (c : TuyaBLEDeviceCredentials) :
  get_device_credentials R self address force_update save_data s = (s', Ok (Some c)) ->
  exists cred,
    c = credentials_of cred
    /\ cred <> []
    /\ ((force_update = false /\ cred = heap s self
         /\ uuid c <> VNone /\ local_key c <> VNone /\ device_id c <> VNone
         /\ category c <> VNone /\ product_id c <> VNone)
        \/ exists key item,
             lookup (_cache s') key = Some item
             /\ lookup (credentials item) address = Some cred)
    /\ check_and_create_device_credentials
         (uuid c) (local_key c) (device_id c) (category c) (product_id c)
         (device_name c) (product_model c) (product_name c)
         (functions c) (status_range c)
       = (if is_complete c then Some c else None).
Proof.
  unfold get_device_credentials. intros H.
  apply bind_inv in H as [([item credentials] & s1 & Hfind & H) | (e & _ & He)];
    [|discriminate He].
  destruct credentials as [cred|]; [|inversion H].
  destruct (Nat.eqb (List.length cred) 0) eqn:Hlen; cbn [negb] in H; [inversion H|].
  apply bind_inv in H as [([] & s2 & Hsave & H) | (e & _ & He)]; [|discriminate He].
  inversion H; subst s2 c; clear H.
  assert (Hcache : _cache s' = _cache s1).
  { assert (Hp : preserves same_cache
                   (if save_data
                    then match item with
                         | Some k => it <- the_item k ;; update_from self (login it)
                         | None => ret tt
                         end ;;; d <- read self ;; write self (update d cred)
                    else ret tt)).
    { repeat preserves_step; auto. }
    specialize (Hp s1). rewrite Hsave in Hp. exact Hp. }
  exists cred. split; [reflexivity|]. split.
  { intros ->. discriminate Hlen. }
  split.
  - apply find_credentials_found in Hfind as [(Hf & Hc & ->) | (key & it & Hk & Ha)].
    + left. split; [assumption|]. split; [reflexivity|].
      cbn [credentials_of uuid local_key device_id category product_id].
      repeat split;
        match goal with
        | |- dict_get _ ?key _ <> VNone =>
            let H := fresh in
            assert (H : In key CONF_TUYA_DEVICE_KEYS) by (cbn; auto 10);
            destruct (has_credentials_lookup _ key Hc H) as (v & _ & Hv & Hget);
            now rewrite Hget
        end.
    + right. exists key, it. rewrite Hcache. auto.
  - unfold check_and_create_device_credentials, is_complete.
    destruct (credentials_of cred); cbn.
    match goal with |- (if ?b then _ else _) = _ => destruct b end; reflexivity.
Qed.

End Origin.

(** C1 as stated fails: a hint whose device fields are empty strings is
    returned as a credential. *)
Lemma incomplete_credential_returned :
  ~ (forall (K : Const) (R : remote) (self : loc) (address : string)
            (force_update save_data : bool) (s s' : state)
            (c : TuyaBLEDeviceCredentials),
       @get_device_credentials K R self address force_update save_data s
       = (s', Ok (Some c)) ->
       is_complete c = true).
Proof.
  intros H.
  specialize (H hass_const offline 0 "DC:23:50:CF:CB:6A" false false
                (hint_state blank_hint) (hint_state blank_hint)
                (@credentials_of hass_const blank_hint) eq_refl).
  discriminate H.
Qed.

Lemma returned_credentials_origin_witness :
  exists cred,
    @credentials_of hass_const blank_hint = @credentials_of hass_const cred
    /\ cred <> []
    /\ ((false = false /\ cred = heap (hint_state blank_hint) 0
         /\ VStr "" <> VNone /\ VStr "" <> VNone /\ VStr "" <> VNone
         /\ VStr "" <> VNone /\ VStr "" <> VNone)
        \/ exists key item,
             lookup (_cache (hint_state blank_hint)) key = Some item
             /\ lookup (credentials item) "DC:23:50:CF:CB:6A" = Some cred)
    /\ check_and_create_device_credentials
         (VStr "") (VStr "") (VStr "") (VStr "") (VStr "")
         (VStr "") (VStr "") (VStr "") (VList []) (VList [])
       = None.
Proof.
  exact (@returned_credentials_origin hass_const offline 0 "DC:23:50:CF:CB:6A"
           false false (hint_state blank_hint) (hint_state blank_hint)
           (@credentials_of hass_const blank_hint) eq_refl).
Defined.

(** ** The credential sub-maps only grow *)

Lemma entries_kept_refl s : entries_kept s s.
Proof. intros key item address entry Hk Ha. eauto. Qed.

Lemma entries_kept_trans s1 s2 s3 :
  entries_kept s1 s2 -> entries_kept s2 s3 -> entries_kept s1 s3.
Proof.
  intros H1 H2 key item address entry Hk Ha.
  destruct (H1 _ _ _ _ Hk Ha) as (item' & entry' & Hk' & Ha').
  exact (H2 _ _ _ _ Hk' Ha').
Qed.

Lemma same_cache_entries_kept {A} (m : M A) :
  preserves same_cache m -> preserves entries_kept m.
Proof.
  intros H s key item address entry Hk Ha.
  rewrite (H s). eauto.
Qed.

Lemma same_cache_alloc : preserves same_cache alloc.
Proof. intros s. reflexivity. Qed.

#[local] Hint Resolve entries_kept_refl entries_kept_trans same_cache_alloc : core.

Section Growth.
Context {K : Const}.
Variable R : remote.

(** storing under [key] an item that knows what the item under [key]
    knew keeps the entries *)
Lemma put_cache_entries_kept key item s :
  (forall old address entry,
      lookup (_cache s) key = Some old ->
      lookup (credentials old) address = Some entry ->
      exists entry', lookup (credentials item) address = Some entry') ->
  entries_kept s (fst (put_cache key item s)).
Proof.
  intros Hold key' item' address entry Hk Ha.
  cbn. rewrite lookup_assign.
  destruct (String.eqb key key') eqn:E.
  - apply String.eqb_eq in E. subst key'.
    destruct (Hold _ _ _ Hk Ha) as [entry' He]. eauto.
  - eauto.
Qed.

Lemma set_entry_entries_kept key mac entry :
  preserves entries_kept (set_entry key mac entry).
Proof.
  intros s. unfold set_entry, the_item. run.
  destruct (lookup (_cache s) key) as [item|] eqn:Hitem; [|apply entries_kept_refl].
  apply (put_cache_entries_kept key _ s).
  intros old address e Hk Ha. rewrite Hitem in Hk. inversion Hk; subst old.
  cbn. rewrite lookup_assign. destruct (String.eqb mac address); eauto.
Qed.

Lemma set_entry_field_entries_kept key mac field v :
  preserves entries_kept (set_entry_field key mac field v).
Proof.
  unfold set_entry_field. repeat preserves_step; auto using set_entry_entries_kept.
Qed.

Lemma call_remote_entries_kept c : preserves entries_kept (call_remote R c).
Proof. apply same_cache_entries_kept. auto. Qed.

Lemma write_entries_kept l d : preserves entries_kept (write l d).
Proof. apply same_cache_entries_kept. auto. Qed.

Lemma update_from_entries_kept target source :
  preserves entries_kept (update_from target source).
Proof. apply same_cache_entries_kept. auto. Qed.

Lemma alloc_entries_kept : preserves entries_kept alloc.
Proof. apply same_cache_entries_kept. auto. Qed.

Hint Resolve set_entry_entries_kept set_entry_field_entries_kept
  call_remote_entries_kept write_entries_kept update_from_entries_kept
  alloc_entries_kept : core.

Lemma fill_device_entries_kept key session device :
  preserves entries_kept (fill_device R key session device).
Proof. unfold fill_device. repeat preserves_step; auto. Qed.

Hint Resolve fill_device_entries_kept : core.

Lemma fill_cache_item_entries_kept key : preserves entries_kept (_fill_cache_item R key).
Proof. unfold _fill_cache_item. repeat preserves_step; auto. Qed.

(** [_login] leaves the sub-map of every item exactly as it was. *)
Lemma login_keeps_credentials data add_to_cache s key item :
  lookup (_cache s) key = Some item ->
  exists item',
    lookup (_cache (fst (_login R data add_to_cache s))) key = Some item'
    /\ credentials item' = credentials item.
Proof.
  intros Hk. unfold _login. run.
  repeat case_split; cbn [fst _cache set_heap set_cache]; eauto;
    rewrite lookup_assign;
    match goal with
    | |- context [String.eqb ?a key] =>
        destruct (String.eqb a key) eqn:E; [apply String.eqb_eq in E; subst|]; eauto
    end.
  all: cbn [_cache set_heap] in *; try congruence;
    eexists; (split; [reflexivity | cbn; congruence]).
Qed.

Lemma login_entries_kept data add_to_cache :
  preserves entries_kept (_login R data add_to_cache).
Proof.
  intros s key item address entry Hk Ha.
  destruct (login_keeps_credentials data add_to_cache s key item Hk) as (item' & Hk' & Hc).
  exists item', entry. split; [assumption | congruence].
Qed.

Hint Resolve fill_cache_item_entries_kept login_entries_kept : core.

Lemma build_entry_entries_kept data entry :
  preserves entries_kept (build_entry R data entry).
Proof. unfold build_entry. repeat preserves_step; auto. Qed.

Hint Resolve build_entry_entries_kept : core.

Lemma build_cache_entries_kept tuya_entries ble_entries :
  preserves entries_kept (build_cache R tuya_entries ble_entries).
Proof. unfold build_cache. repeat preserves_step; auto. Qed.

Lemma get_login_from_cache_entries_kept self :
  preserves entries_kept (get_login_from_cache self).
Proof. unfold get_login_from_cache. repeat preserves_step; auto. Qed.

Lemma find_credentials_entries_kept self address force_update :
  preserves entries_kept (find_credentials R self address force_update).
Proof. unfold find_credentials. repeat preserves_step; auto. Qed.

Lemma get_device_credentials_entries_kept self address force_update save_data :
  preserves entries_kept (get_device_credentials R self address force_update save_data).
Proof.
  unfold get_device_credentials.
  apply preserves_bind; [eauto | apply find_credentials_entries_kept |].
  intros [item credentials]. repeat preserves_step; auto.
Qed.

End Growth.

Section Relogin.
Context {K : Const}.
Variable R : remote.

Lemma login_success_not_empty : _is_login_success (VDict []) = Ok false.
Proof. reflexivity. Qed.

(** A successful login for a key that has an item replaces the session
    and the login reference of that item and keeps its sub-map. *)
Lemma relogin_in_place data s s' response key item :
  lookup (_cache s) key = Some item ->
  _login R data true s = (s', Ok response) ->
  _is_login_success response = Ok true ->
  _get_cache_key (heap s' data) = Ok key ->
  lookup (_cache s') key
  = Some {| api := Some (open_api (heap s data)); login := data;
            credentials := credentials item |}.
Proof.
  intros Hk Hrun Hsucc Hkey. revert Hrun. unfold _login. run.
  repeat case_split; intros Hrun; inversion Hrun; subst; clear Hrun;
    try (rewrite login_success_not_empty in Hsucc; discriminate Hsucc);
    try congruence;
    cbn [heap _cache set_heap set_cache] in *;
    match goal with
    | H1 : _get_cache_key ?d = Ok ?k1, H2 : _get_cache_key ?d = Ok ?k2 |- _ =>
        rewrite H1 in H2; inversion H2; subst
    end;
    rewrite lookup_assign_same; congruence.
Qed.

(** a login that is not asked to cache leaves the cache as it is *)
Lemma login_uncached_same_cache data s : _cache (fst (_login R data false s)) = _cache s.
Proof. unfold _login, dict_item. run. repeat case_split; reflexivity. Qed.

(** C7, as the code has it. A successful login that is asked to cache,
    for a fingerprint that has a cache item, puts the new session and the
    login data into that item and keeps its credential sub-map; a login
    that is not asked to cache leaves the cache as it is, whatever the
    client answers; and no operation of the manager ever removes an
    address from the sub-map of an item: what an item knows before
    [_login], [_fill_cache_item], [build_cache], [get_login_from_cache] or
    [get_device_credentials], the item under the same key knows after,
    however the operation ends. *)
Theorem credential_sub_maps_only_grow :
  (forall data s s' response key item,
      lookup (_cache s) key = Some item ->
      _login R data true s = (s', Ok response) ->
      _is_login_success response = Ok true ->
      _get_cache_key (heap s' data) = Ok key ->
      lookup (_cache s') key
      = Some {| api := Some (open_api (heap s data)); login := data;
                credentials := credentials item |})
  /\ (forall data s, _cache (fst (_login R data false s)) = _cache s)
  /\ (forall data add_to_cache s,
         entries_kept s (fst (_login R data add_to_cache s)))
  /\ (forall key s, entries_kept s (fst (_fill_cache_item R key s)))
  /\ (forall tuya_entries ble_entries s,
         entries_kept s (fst (build_cache R tuya_entries ble_entries s)))
  /\ (forall self s, entries_kept s (fst (get_login_from_cache self s)))
  /\ (forall self address force_update save_data s,
         entries_kept s
           (fst (get_device_credentials R self address force_update save_data s))).
Proof.
  split; [exact relogin_in_place|].
  split; [exact login_uncached_same_cache|].
  split; [intros; apply login_entries_kept|].
  split; [intros; apply fill_cache_item_entries_kept|].
  split; [intros; apply build_cache_entries_kept|].
  split; [intros; apply get_login_from_cache_entries_kept|].
  intros; apply get_device_credentials_entries_kept.
Qed.

End Relogin.

(** ** One pass of [_fill_cache_item] *)


Section Fill.
Context {K : Const}.
Variable R : remote.









Lemma spec_response_result spec :
  py_get (spec_response spec) TUYA_RESPONSE_RESULT VNone = Ok (VDict spec).
Proof. unfold spec_response, py_get, dict_get. cbn. now rewrite String.eqb_refl. Qed.





(** a round of a loop that returns is followed by the rest of the loop *)
Lemma for_each_continues {A} (body : A -> M unit) x l s s1 :
  body x s = (s1, Ok tt) ->
  for_each body (x :: l) s = for_each body l s1.
Proof. intros H. cbn [for_each]. now rewrite (bind_ok _ _ _ _ _ H). Qed.


End Fill.

(** ** Entries read back as credentials *)







Section Entries.
Context {K : Const}.








End Entries.

(** ** A login the client accepts, and a context whose devices cannot be
    listed *)

Lemma lookup_update_not_in {V} (c m : list (string * V)) (k : string) :
  ~ In k (map fst c) -> lookup (update m c) k = lookup m k.
Proof.
  revert m. induction c as [|[k0 v0] c IH]; intros m Hin; [reflexivity|].
  unfold update in *. cbn [fold_left fst snd]. rewrite IH.
  - rewrite lookup_assign. destruct (String.eqb k0 k) eqn:E; [|reflexivity].
    apply String.eqb_eq in E. subst. cbn in Hin. tauto.
  - cbn in Hin. tauto.
Qed.

(** [json.dumps] raises nothing but [TypeError] *)
Lemma json_dumps_error : forall (v : pyval) (e : exn), json_dumps v = Err e -> e = TypeError.
Proof.
  fix IH 1. intros [| [] | z | s | l | d | z] e; cbn [json_dumps]; try discriminate.
  - match goal with
    | |- match ?items l with _ => _ end = _ -> _ =>
        assert (H : forall e', items l = Err e' -> e' = TypeError)
    end.
    { induction l as [|x l IHl]; intros e'; [discriminate|].
      pose proof (IH x) as Hx.
      destruct (json_dumps x) as [a|ex].
      - match goal with
        | |- match ?t with _ => _ end = _ -> _ => destruct t as [b|el] eqn:Hl
        end; [discriminate|].
        intros Heq. inversion Heq; subst. now apply IHl.
      - intros Heq. inversion Heq; subst. now apply Hx. }
    match goal with
    | |- match ?t with _ => _ end = _ -> _ => destruct t as [parts|el]
    end; [discriminate|].
    intros Heq. inversion Heq; subst. now apply H.
  - match goal with
    | |- match ?members d with _ => _ end = _ -> _ =>
        assert (H : forall e', members d = Err e' -> e' = TypeError)
    end.
    { induction d as [|[k x] d IHd]; intros e'; [discriminate|].
      pose proof (IH x) as Hx.
      destruct (json_dumps x) as [a|ex].
      - match goal with
        | |- match ?t with _ => _ end = _ -> _ => destruct t as [b|el] eqn:Hl
        end; [discriminate|].
        intros Heq. inversion Heq; subst. now apply IHd.
      - intros Heq. inversion Heq; subst. now apply Hx. }
    match goal with
    | |- match ?t with _ => _ end = _ -> _ => destruct t as [parts|el]
    end; [discriminate|].
    intros Heq. inversion Heq; subst. now apply H.
  - intros Heq. now inversion Heq.
Qed.

(** a dictionary that holds a member of [AuthType] is not serialisable *)
Lemma json_dumps_enum_member (d : dict) (k : string) (v : Z) :
  lookup d k = Some (VAuthType v) -> json_dumps (VDict d) = Err TypeError.
Proof.
  intros Hk.
  assert (H : exists e, json_dumps (VDict d) = Err e).
  { cbn [json_dumps].
    match goal with
    | |- exists e, match ?members d with _ => _ end = _ =>
        assert (H : exists e', members d = Err e')
    end.
    { induction d as [|[k0 x] d IHd]; [discriminate Hk|].
      cbn [lookup] in Hk. destruct (String.eqb k0 k).
      - inversion Hk; subst x. cbn [json_dumps]. eauto.
      - destruct (IHd Hk) as [e' He']. rewrite He'.
        destruct (json_dumps x); eauto. }
    destruct H as [e' ->]. eauto. }
  destruct H as [e He]. now rewrite He, (json_dumps_error _ _ He).
Qed.

Lemma lookup_update_computed {V} (f : string -> V) (l : list string) (k : string) :
  In k l -> forall m, lookup (update m (map (fun key => (key, f key)) l)) k = Some (f k).
Proof.
  induction l as [|k0 l IH]; intros Hin m; [destruct Hin|].
  unfold update in *. cbn [map fold_left fst snd].
  destruct (in_dec string_dec k l) as [Hl | Hl].
  - now apply IH.
  - destruct Hin as [-> | Hin]; [|contradiction].
    change (lookup (update (assign m k (f k)) (map (fun key => (key, f key)) l)) k
            = Some (f k)).
    rewrite lookup_update_not_in; [apply lookup_assign_same|].
    now rewrite map_map, map_id.
Qed.

(** the fingerprint of data that holds a member of [AuthType] cannot be
    computed *)
Lemma cache_key_enum_member {K : Const} (d : dict) (v : Z) :
  lookup d CONF_AUTH_TYPE = Some (VAuthType v) -> _get_cache_key d = Err TypeError.
Proof.
  intros H. unfold _get_cache_key.
  apply (json_dumps_enum_member _ CONF_AUTH_TYPE v).
  unfold key_dict, literal.
  rewrite (lookup_update_computed (fun key => dict_get d key VNone)).
  - unfold dict_get. now rewrite H.
  - unfold CONF_TUYA_LOGIN_KEYS. cbn. auto.
Qed.


Section BatchRound.
Context {K : Const}.
Variable R : remote.

(** a caching login that the client accepts, run: the data is as before,
    the request is recorded and the item under the fingerprint holds the
    new session, with the sub-map the fingerprint had *)
Lemma login_accepted (data : loc) (s : state) (u a response : pyval) (key : string) :
  lookup (heap s data) CONF_USERNAME = Some u ->
  lookup (heap s data) CONF_AUTH_TYPE = Some a ->
  _get_cache_key (heap s data) = Ok key ->
  R (calls s) (connect_of (heap s data)) = Ok response ->
  _is_login_success response = Ok true ->
  _login R data true s
  = ({| heap := heap s; next := next s;
        _cache := assign (_cache s) key
                    {| api := Some (open_api (heap s data)); login := data;
                       credentials := match lookup (_cache s) key with
                                      | Some old => credentials old
                                      | None => []
                                      end |};
        calls := (calls s ++ [connect_of (heap s data)])%list |},
     Ok response).
Proof.
  intros Hu Ha Hkey Hconnect Hsucc.
  assert (Hne : Nat.eqb (List.length (heap s data)) 0 = false).
  { destruct (heap s data); [discriminate Hu | reflexivity]. }
  assert (Hplain : forall v, a <> VAuthType v).
  { intros v ->. rewrite (cache_key_enum_member _ v Ha) in Hkey. discriminate Hkey. }
  unfold connect_of in Hconnect.
  unfold _login, dict_item. run.
  rewrite Hne, Hconnect, Hsucc, Hu, Ha.
  destruct a; try (exfalso; eapply Hplain; reflexivity);
    cbn [heap _cache calls set_cache set_heap]; rewrite Hkey;
    cbn [heap _cache calls set_cache set_heap];
    destruct (lookup (_cache s) key); reflexivity.
Qed.





End BatchRound.

(** ** Partial failure of a batch pass *)

Section Batch.
Context {K : Const}.
Variable R : remote.


End Batch.

(** *** A pass over three devices, run *)




(** ** An exception that leaves [get_device_credentials] *)

Section Escapes.
Context {K : Const}.
Variable R : remote.

Lemma has_login_needs_auth_type (d : dict) :
  lookup d CONF_AUTH_TYPE = None -> _has_login d = false.
Proof.
  intros H. unfold _has_login, CONF_TUYA_LOGIN_KEYS. cbn [forallb].
  unfold dict_get at 4. rewrite H. cbn [is_not_None].
  now rewrite !andb_false_r.
Qed.

Lemma login_key_error (data : loc) (s : state) (u response : pyval) :
  lookup (heap s data) CONF_USERNAME = Some u ->
  lookup (heap s data) CONF_AUTH_TYPE = None ->
  R (calls s)
    (CallConnect (open_api (heap s data))
       (dict_get (heap s data) CONF_USERNAME (VStr ""))
       (dict_get (heap s data) CONF_PASSWORD (VStr ""))
       (dict_get (heap s data) CONF_COUNTRY_CODE (VStr ""))
       (dict_get (heap s data) CONF_APP_TYPE (VStr ""))) = Ok response ->
  _is_login_success response = Ok true ->
  snd (_login R data true s) = Err KeyError.
Proof.
  intros Hu Ha Hconnect Hsuccess. unfold _login, dict_item. run.
  destruct (heap s data) as [|kv d] eqn:Hd; [discriminate Hu|].
  cbn [List.length Nat.eqb]. rewrite Hconnect, Hsuccess, Hu, Ha. reflexivity.
Qed.

(** C3 fails on the code. When the manager's data has a user name and no
    [CONF_AUTH_TYPE] key and the client accepts the login, a forced
    [get_device_credentials] does not return: the [KeyError] raised by
    [data[CONF_AUTH_TYPE]] in [_login] leaves the method. *)
Theorem get_device_credentials_raises (self : loc) (address : string)
    (save_data : bool) (s : state) (u response : pyval) :
  lookup (heap s self) CONF_USERNAME = Some u ->
  lookup (heap s self) CONF_AUTH_TYPE = None ->
  R (calls s)
    (CallConnect (open_api (heap s self))
       (dict_get (heap s self) CONF_USERNAME (VStr ""))
       (dict_get (heap s self) CONF_PASSWORD (VStr ""))
       (dict_get (heap s self) CONF_COUNTRY_CODE (VStr ""))
       (dict_get (heap s self) CONF_APP_TYPE (VStr ""))) = Ok response ->
  _is_login_success response = Ok true ->
  snd (get_device_credentials R self address true save_data s) = Err KeyError.
Proof.
  intros Hu Ha Hconnect Hsuccess.
  pose proof (login_key_error self s u response Hu Ha Hconnect Hsuccess) as Hlogin.
  destruct (_login R self true s) as [s1 r] eqn:Hrun. cbn [snd] in Hlogin. subst r.
  unfold get_device_credentials.
  rewrite (bind_err _ _ s s1 KeyError); [reflexivity|].
  unfold find_credentials.
  rewrite (bind_ok (read self) _ s s (heap s self) eq_refl).
  cbn [negb andb]. rewrite (has_login_needs_auth_type _ Ha).
  rewrite (bind_ok (bind get_cache _) _ s s
             (find_by_address (_cache s) address) eq_refl).
  assert (Hfound : exists found,
             (if key_truthy (find_by_address (_cache s) address)
              then cache_get (find_by_address (_cache s) address)
              else ret None) s = (s, Ok found)).
  { destruct (key_truthy _); eexists; reflexivity. }
  destruct Hfound as [found Hfound].
  rewrite (bind_ok _ _ s s found Hfound).
  cbv zeta. rewrite orb_true_r.
  apply bind_err. apply bind_err. exact Hrun.
Qed.

End Escapes.

Lemma get_device_credentials_raises_witness :
  snd (@get_device_credentials hass_const accept 0 "DC:23:50:CF:CB:6A" true false
         (hint_state prototype_config))
  = Err KeyError.
Proof.
  apply (@get_device_credentials_raises hass_const accept 0 "DC:23:50:CF:CB:6A" false
           (hint_state prototype_config) (VStr "user@example.org")
           (VDict [("success", VBool true)]));
    reflexivity.
Defined.

(** ** A login that finds its item *)

(** C7 as stated fails: a successful login that is not asked to cache, the
    default of [login], leaves the item of its fingerprint with the
    session and the login it had. *)
Lemma uncached_relogin_keeps_item :
  ~ (forall (K : Const) (R : remote) (data : loc) (add_to_cache : bool)
            (s s' : state) (response : pyval) (key : string)
            (item : TuyaCloudCacheItem),
       lookup (_cache s) key = Some item ->
       @_login K R data add_to_cache s = (s', Ok response) ->
       @_is_login_success K response = Ok true ->
       @_get_cache_key K (heap s' data) = Ok key ->
       lookup (_cache s') key
       = Some {| api := Some (@open_api K (heap s data)); login := data;
                 credentials := credentials item |}).
Proof.
  intros H.
  specialize (H hass_const accept 0 false relogin_state
                (fst (@_login hass_const accept 0 false relogin_state))
                (VDict [("success", VBool true)]) fingerprint_1 stale_item
                eq_refl eq_refl eq_refl eq_refl).
  vm_compute in H. discriminate H.
Qed.

Lemma credential_sub_maps_only_grow_witness :
  lookup (_cache (fst (@_login hass_const accept 0 true relogin_state))) fingerprint_1
  = Some {| api := Some (@open_api hass_const login_fields_1);
            login := 0;
            credentials := [("DC:23:50:CF:CB:6A", complete_hint)] |}.
Proof.
  apply (proj1 (@credential_sub_maps_only_grow hass_const accept) 0 relogin_state
           (fst (@_login hass_const accept 0 true relogin_state))
           (VDict [("success", VBool true)]) fingerprint_1 stale_item);
    reflexivity.
Defined.

(** ** [build_cache] over two contexts *)

(** The list-devices failure of the first context leaves its item without
    entries, and the second context is populated all the same. *)
Example build_cache_after_list_failure :
  exists s' item1 item2 entry,
    @build_cache hass_const first_list_fails
      [context_of "https://first"; context_of "https://second"] [] initial_state
    = (s', Ok tt)
    /\ lookup (_cache s') (fingerprint_of "https://first") = Some item1
    /\ credentials item1 = []
    /\ lookup (_cache s') (fingerprint_of "https://second") = Some item2
    /\ lookup (credentials item2) "DC:23:50:CF:CB:0A" = Some entry
    /\ @credentials_of hass_const entry = device_credentials (device "a") lamp_spec.
Proof.
  eexists. eexists. eexists. eexists.
  split; [vm_compute; reflexivity|].
  repeat split; vm_compute; reflexivity.
Qed.

(** * Further properties of the code *)

(** ** [format_mac] on arbitrary strings *)

Lemma upper_app (a b : string) : upper (a ++ b) = upper a ++ upper b.
Proof. induction a as [|c a IH]; cbn; [reflexivity | now rewrite IH]. Qed.

Lemma upper_idem (s : string) : upper (upper s) = upper s.
Proof.
  induction s as [|c s IH]; cbn; [reflexivity|].
  now rewrite upper_ascii_idem, IH.
Qed.

Lemma upper_substring (s : string) : forall n m,
  upper (substring n m s) = substring n m (upper s).
Proof.
  induction s as [|c s IH]; intros [|n] [|m]; cbn; try reflexivity.
  - now rewrite IH.
  - apply IH.
  - apply IH.
Qed.

Lemma upper_concat (sep : string) (l : list string) :
  upper (String.concat sep l) = String.concat (upper sep) (map upper l).
Proof.
  induction l as [|a l IH]; [reflexivity|].
  destruct l as [|b l]; [reflexivity|].
  change (String.concat sep (a :: b :: l)) with (a ++ sep ++ String.concat sep (b :: l)).
  change (String.concat (upper sep) (map upper (a :: b :: l)))
    with (upper a ++ upper sep ++ String.concat (upper sep) (map upper (b :: l))).
  now rewrite !upper_app, IH.
Qed.

(** the address is computed from the uppercased raw string *)
Lemma mac_of_upper (s : string) :
  mac_of s = String.concat ":" (map (fun i => substring i 2 (upper s)) range_0_12_2).
Proof.
  unfold mac_of. rewrite upper_concat, map_map.
  change (upper ":") with ":". f_equal.
  apply map_ext. intros i. apply upper_substring.
Qed.

(** X1. Two raw addresses that differ in the case of their letters only give
    the same address. *)
Theorem format_mac_ignores_case (s s' : string) :
  upper s = upper s' -> format_mac (VStr s) = format_mac (VStr s').
Proof.
  intros H. cbn [format_mac]. fold (mac_of s) (mac_of s').
  now rewrite !mac_of_upper, H.
Qed.

Lemma format_mac_ignores_case_witness :
  format_mac (VStr "dc2350cfcb6a") = format_mac (VStr "DC2350cfCB6A").
Proof. apply format_mac_ignores_case. reflexivity. Defined.

(** X2. Only the first twelve characters of the raw address are used. *)
Theorem format_mac_reads_twelve (s t : string) :
  String.length s = 12 -> format_mac (VStr (s ++ t)) = format_mac (VStr s).
Proof.
  intros Hlen.
  destruct (string_of_length_12 s Hlen)
    as (a & b & c & d & e & f & g & h & i & j & k & l & ->).
  cbn -[upper]. destruct t; reflexivity.
Qed.

Lemma format_mac_reads_twelve_witness :
  format_mac (VStr ("dc2350cfcb6a" ++ "0042")) = format_mac (VStr "dc2350cfcb6a").
Proof. apply format_mac_reads_twelve. reflexivity. Defined.


(** ** The scan for an address *)

(** X4. The scan returns the key of the first item, in insertion order, whose
    sub-map holds the address, and [None] exactly when no item does. *)
Theorem find_by_address_first (c : list (string * TuyaCloudCacheItem)) (address : string) :
  match find_by_address c address with
  | Some key =>
      exists before item after entry,
        c = (before ++ (key, item) :: after)%list
        /\ lookup (credentials item) address = Some entry
        /\ forall k it, In (k, it) before -> lookup (credentials it) address = None
  | None =>
      forall k it, In (k, it) c -> lookup (credentials it) address = None
  end.
Proof.
  induction c as [|[key item] c IH]; cbn [find_by_address].
  - intros k it [].
  - destruct (lookup (credentials item) address) as [entry|] eqn:Hitem.
    + exists [], item, c, entry. cbn. repeat split; auto. intros k it [].
    + destruct (find_by_address c address) as [key'|].
      * destruct IH as (before & item' & after & entry & -> & Hentry & Hbefore).
        exists ((key, item) :: before)%list, item', after, entry.
        repeat split; auto.
        intros k it [Heq | Hin]; [inversion Heq; subst; assumption | eauto].
      * intros k it [Heq | Hin]; [inversion Heq; subst; assumption | eauto].
Qed.

(** ** [_login] and [_check_login] *)

Section LoginMore.
Context {K : Const}.
Variable R : remote.

(** X5. [_login] changes the cache and the login data only when it is asked
    to cache and the client answered with a success; in every other case,
    a raising or refused login included, the cache and every dictionary are
    as before. *)
Theorem login_changes_nothing_unless_success (data : loc) (add_to_cache : bool)
    (s : state) :
  let s' := fst (_login R data add_to_cache s) in
  (_cache s' = _cache s /\ forall l, heap s' l = heap s l)
  \/ (add_to_cache = true
      /\ exists response,
           R (calls s)
             (CallConnect (open_api (heap s data))
                (dict_get (heap s data) CONF_USERNAME (VStr ""))
                (dict_get (heap s data) CONF_PASSWORD (VStr ""))
                (dict_get (heap s data) CONF_COUNTRY_CODE (VStr ""))
                (dict_get (heap s data) CONF_APP_TYPE (VStr ""))) = Ok response
           /\ _is_login_success response = Ok true).
Proof.
  unfold _login, dict_item. run.
  repeat case_split; cbn [fst _cache heap set_heap set_cache];
    try (left; split; [reflexivity | intros l; reflexivity]);
    right; (split; [reflexivity|]); eexists; split; eauto.
Qed.

(** with empty data [_login] returns [{}] and does not reach the client *)
Lemma login_without_data (data : loc) (add_to_cache : bool) (s : state) :
  heap s data = [] -> _login R data add_to_cache s = (s, Ok (VDict [])).
Proof. intros H. unfold _login. run. now rewrite H. Qed.

(** [_check_login] does not change the store. *)
Lemma check_login_pure (self : loc) (s : state) : fst (_check_login self s) = s.
Proof.
  unfold _check_login. run.
  destruct (_get_cache_key (heap s self)); reflexivity.
Qed.

(** a successful caching login leaves an item under the key of the data,
    and that item refers to the data *)
Lemma login_success_cached (self : loc) (s s' : state) (response : pyval) :
  _login R self true s = (s', Ok response) ->
  _is_login_success response = Ok true ->
  exists key item,
    _get_cache_key (heap s' self) = Ok key
    /\ lookup (_cache s') key = Some item
    /\ login item = self
    /\ api item = Some (open_api (heap s self)).
Proof.
  intros Hrun Hsucc. revert Hrun. unfold _login, dict_item. run.
  repeat case_split; intros Hrun; inversion Hrun; subst; clear Hrun;
    try (rewrite login_success_not_empty in Hsucc; discriminate Hsucc);
    try congruence;
    cbn [heap _cache set_heap set_cache] in *;
    eexists; eexists;
    (split; [eassumption|]); rewrite lookup_assign_same;
    (split; [reflexivity|]); split; reflexivity.
Qed.

(** X6. After a login that was asked to cache and succeeded, [_check_login]
    on the same data answers [True]. *)
Theorem check_login_after_login (self : loc) (s s' : state) (response : pyval) :
  _login R self true s = (s', Ok response) ->
  _is_login_success response = Ok true ->
  _check_login self s' = (s', Ok true).
Proof.
  intros Hrun Hsucc.
  destruct (login_success_cached self s s' response Hrun Hsucc)
    as (key & item & Hkey & Hitem & _).
  unfold _check_login. run. now rewrite Hkey, Hitem.
Qed.

End LoginMore.

(** ** What a pass of [_fill_cache_item] touches *)

Lemma fills_only_refl key s : fills_only key s s.
Proof.
  split; [reflexivity|]. split; [reflexivity|].
  destruct (lookup (_cache s) key) as [item|]; eauto.
Qed.

Lemma fills_only_trans key s1 s2 s3 :
  fills_only key s1 s2 -> fills_only key s2 s3 -> fills_only key s1 s3.
Proof.
  intros (Hh1 & Hk1 & Hi1) (Hh2 & Hk2 & Hi2).
  split; [intros l; now rewrite Hh2, Hh1|].
  split; [intros k Hk; now rewrite Hk2, Hk1|].
  destruct (lookup (_cache s1) key) as [item|].
  - destruct Hi1 as (item' & Hl & Ha & Hg). rewrite Hl in Hi2.
    destruct Hi2 as (item'' & Hl' & Ha' & Hg').
    exists item''. repeat split; congruence.
  - now rewrite Hi1 in Hi2.
Qed.

#[local] Hint Resolve fills_only_refl fills_only_trans : core.

Section FillFrame.
Context {K : Const}.
Variable R : remote.

Lemma call_remote_fills_only key c : preserves (fills_only key) (call_remote R c).
Proof.
  intros s. split; [reflexivity|]. split; [reflexivity|]. cbn.
  destruct (lookup (_cache s) key) as [item|]; eauto.
Qed.

Lemma set_entry_fills_only key mac entry : preserves (fills_only key) (set_entry key mac entry).
Proof.
  intros s. unfold set_entry, the_item. run.
  destruct (lookup (_cache s) key) as [item|] eqn:Hitem; cbn [fst raise].
  - split; [reflexivity|]. split.
    + intros k Hk. cbn. rewrite lookup_assign.
      destruct (String.eqb key k) eqn:E; [|reflexivity].
      apply String.eqb_eq in E. congruence.
    + rewrite Hitem. cbn. rewrite lookup_assign_same. eauto.
  - apply fills_only_refl.
Qed.

Lemma set_entry_field_fills_only key mac field v :
  preserves (fills_only key) (set_entry_field key mac field v).
Proof.
  unfold set_entry_field. repeat preserves_step; auto using set_entry_fills_only.
Qed.

Hint Resolve call_remote_fills_only set_entry_fills_only set_entry_field_fills_only : core.

Lemma fill_device_fills_only key session device :
  preserves (fills_only key) (fill_device R key session device).
Proof. unfold fill_device. repeat preserves_step; auto. Qed.

Hint Resolve fill_device_fills_only : core.

Lemma fill_cache_item_fills_only key :
  preserves (fills_only key) (_fill_cache_item R key).
Proof. unfold _fill_cache_item. repeat preserves_step; auto. Qed.

(** X7. A pass of [_fill_cache_item] changes the sub-map of its item and
    nothing else: the other items of the cache, the session and the login
    reference of its own item and every dictionary are as before, and the
    client is not asked to log in; this holds however the pass ends. *)
Theorem fill_touches_one_sub_map (key : string) (s : state) :
  let s' := fst (_fill_cache_item R key s) in
  (forall l, heap s' l = heap s l)
  /\ (forall k, k <> key -> lookup (_cache s') k = lookup (_cache s) k)
  /\ match lookup (_cache s) key with
     | Some item =>
         exists item',
           lookup (_cache s') key = Some item'
           /\ api item' = api item /\ login item' = login item
     | None => lookup (_cache s') key = None
     end
  /\ logins (calls s') = logins (calls s).
Proof.
  destruct (fill_cache_item_fills_only key s) as (Hh & Hk & Hi).
  repeat split; try assumption.
  apply fill_cache_item_same_logins.
Qed.

(** X8. When the list-devices response has no result, an empty one or one
    that cannot be iterated, the pass ends normally after that one request
    and the cache is as before. *)
Theorem fill_without_devices (key : string) (s : state) item session response devices :
  item_at s key item ->
  api item = Some session ->
  R (calls s) (CallGet session ReqDevices) = Ok response ->
  py_get response TUYA_RESPONSE_RESULT VNone = Ok devices ->
  truthy devices = false \/ py_iter devices = None ->
  exists s',
    _fill_cache_item R key s = (s', Ok tt)
    /\ _cache s' = _cache s
    /\ calls s' = (calls s ++ [CallGet session ReqDevices])%list.
Proof.
  unfold item_at. intros Hitem Hapi Hlist Hres Hnone.
  unfold _fill_cache_item, the_item, try_except. run.
  rewrite Hitem, Hapi, Hlist, Hres.
  destruct Hnone as [Hf | Hi]; [rewrite Hf | rewrite Hi; destruct (truthy devices)];
    eexists; repeat split; reflexivity.
Qed.

(** X9. An element of the device list that is not a dictionary is not
    skipped: the handler of the failed request reads [device.get("id")]
    for its log line, and the [AttributeError] ends the whole pass before
    any request for this or a later device. *)
Theorem fill_stops_at_malformed_device (key : string) (s : state) item session
    response bad rest :
  item_at s key item ->
  api item = Some session ->
  R (calls s) (CallGet session ReqDevices) = Ok response ->
  py_get response TUYA_RESPONSE_RESULT VNone = Ok (VList (bad :: rest)) ->
  not_a_dict bad ->
  exists s',
    _fill_cache_item R key s = (s', Err AttributeError)
    /\ _cache s' = _cache s
    /\ calls s' = (calls s ++ [CallGet session ReqDevices])%list.
Proof.
  unfold item_at. intros Hitem Hapi Hlist Hres Hbad.
  unfold _fill_cache_item, the_item, try_except. run.
  rewrite Hitem, Hapi, Hlist, Hres.
  cbn [truthy List.length Nat.eqb negb py_iter for_each].
  unfold fill_device, try_except. run.
  destruct bad; try contradiction; cbn; eexists; repeat split; reflexivity.
Qed.

(** X10. A device whose factory info has no result, or whose first factory
    record is empty or lacks the address, is skipped: no entry is written
    and its specification is not requested. *)
Theorem device_without_mac_skipped (key : string) (session : TuyaOpenAPI) (dev : dict)
    (s : state) fi_response fi_result :
  R (calls s) (CallGet session (ReqFactoryInfo (dict_get dev "id" VNone))) = Ok fi_response ->
  py_get fi_response TUYA_RESPONSE_RESULT VNone = Ok fi_result ->
  truthy fi_result = false
  \/ (exists info others,
         fi_result = VList (VDict info :: others)
         /\ (info = [] \/ lookup info TUYA_FACTORY_INFO_MAC = None)) ->
  exists s',
    fill_device R key session (VDict dev) s = (s', Ok tt)
    /\ _cache s' = _cache s
    /\ calls s'
       = (calls s ++ [CallGet session (ReqFactoryInfo (dict_get dev "id" VNone))])%list.
Proof.
  intros Hfi Hres Hskip.
  unfold fill_device, try_except. run. cbn [py_get].
  rewrite Hfi, Hres.
  destruct Hskip as [Hf | (info & others & -> & Hinfo)].
  - rewrite Hf. eexists. repeat split; reflexivity.
  - cbn [truthy List.length Nat.eqb negb py_len Nat.ltb Nat.leb py_first].
    destruct Hinfo as [-> | Hmac].
    + cbn. eexists. repeat split; reflexivity.
    + destruct info as [|kv info]; [cbn; eexists; repeat split; reflexivity|].
      cbn [truthy List.length Nat.eqb negb py_contains].
      rewrite Hmac. eexists. repeat split; reflexivity.
Qed.

End FillFrame.

(** ** More on [get_device_credentials] *)

(** after [m.update(c)] every key of [c] reads as in [c] *)
Lemma lookup_update_in {V} (c m : list (string * V)) (k : string) (v : V) :
  unique_keys c -> lookup c k = Some v -> lookup (update m c) k = Some v.
Proof.
  unfold unique_keys. revert m. induction c as [|[k0 v0] c IH]; intros m Hnd Hk.
  - discriminate Hk.
  - cbn in Hnd. apply NoDup_cons_iff in Hnd as [Hnotin Hnd].
    unfold update in *. cbn [fold_left fst snd]. cbn in Hk.
    destruct (String.eqb k0 k) eqn:E.
    + apply String.eqb_eq in E. subst k0. inversion Hk; subst v0.
      change (lookup (update (assign m k v) c) k = Some v).
      rewrite lookup_update_not_in by assumption. apply lookup_assign_same.
    + now apply IH.
Qed.

Section ResolverMore.
Context {K : Const}.
Variable R : remote.

Lemma has_nothing_empty : _has_credentials [] = false /\ _has_login [] = false.
Proof. split; reflexivity. Qed.

(** X11. A manager without any data never reaches the client: whatever the
    flags, [get_device_credentials] returns normally, with what the cache
    holds for the address or [None], and the call log and the cache are as
    before. *)
Theorem no_data_no_remote_call (self : loc) (address : string)
    (force_update save_data : bool) (s : state) :
  heap s self = [] ->
  exists s' r,
    get_device_credentials R self address force_update save_data s = (s', Ok r)
    /\ calls s' = calls s
    /\ _cache s' = _cache s.
Proof.
  intros Hempty.
  unfold get_device_credentials, find_credentials, the_item, update_from.
  cbv [bind ret lift raise read write cache_get get_cache].
  rewrite Hempty. destruct has_nothing_empty as [-> ->].
  rewrite andb_false_r.
  destruct (key_truthy (find_by_address (_cache s) address)) eqn:Hkt;
    [destruct (find_by_address (_cache s) address) as [k|] eqn:Hfind;
       [|discriminate Hkt];
     destruct (lookup (_cache s) k) as [it|] eqn:Hit|];
    destruct force_update; cbn [orb];
    rewrite ?(login_without_data R self true s Hempty), ?login_success_not_empty;
    rewrite ?Hit;
    repeat case_split; try congruence;
    eexists; eexists; repeat split; reflexivity.
Qed.

(** X12. Without [force_update], when the item the manager looks under is
    in the cache, the call is answered from its sub-map alone: with
    [save_data] false nothing at all changes, and no request is made. *)
Theorem cache_hit_is_silent (self : loc) (address key : string) (s : state) item :
  _has_credentials (heap s self) = false ->
  resolves_to s self address key ->
  Nat.eqb (String.length key) 0 = false ->
  lookup (_cache s) key = Some item ->
  get_device_credentials R self address false false s = (s, Ok (answer_of item address)).
Proof.
  intros Hnc Hres Hne Hitem.
  unfold get_device_credentials, find_credentials, the_item, answer_of.
  cbv [bind ret lift raise read write cache_get get_cache].
  rewrite Hnc. cbn [negb andb].
  destruct Hres as [[Hl Hk] | [Hl Hk]]; rewrite Hl, ?Hk;
    cbn [key_truthy]; rewrite Hne; cbn [negb]; rewrite Hitem; cbn [orb];
    rewrite Hitem;
    destruct (lookup (credentials item) address) as [c|]; [|reflexivity| |reflexivity];
    destruct (negb (Nat.eqb (List.length c) 0)); reflexivity.
Qed.

(** the fast path, run *)
Lemma fast_path_run (R' : remote) (self : loc) (address : string) (save_data : bool)
    (s : state) :
  _has_credentials (heap s self) = true ->
  exists s',
    get_device_credentials R' self address false save_data s
    = (s', Ok (Some (credentials_of (heap s self))))
    /\ calls s' = calls s.
Proof.
  intros H. pose proof (has_credentials_nonempty _ H) as Hne.
  unfold get_device_credentials, find_credentials.
  cbv [bind read ret write]. rewrite H. cbn [negb andb]. rewrite Hne. cbn [negb].
  destruct save_data; eexists; split; reflexivity.
Qed.

(** X13. What [save_data] is for. When a call without [force_update] finds in
    the cache an entry that holds every device key, with [save_data] it
    answers from the entry, makes no request, and leaves in the manager's
    data every key of the entry with the value of the entry; from then on
    every call without [force_update], for whatever address, is answered
    from the data with the same eight device fields and no request. *)
Theorem saved_credential_serves_next_calls (self : loc) (address key : string)
    (s : state) item cred :
  _has_credentials (heap s self) = false ->
  resolves_to s self address key ->
  Nat.eqb (String.length key) 0 = false ->
  lookup (_cache s) key = Some item ->
  lookup (credentials item) address = Some cred ->
  _has_credentials cred = true ->
  unique_keys cred ->
  exists s1,
    get_device_credentials R self address false true s
    = (s1, Ok (Some (credentials_of cred)))
    /\ calls s1 = calls s
    /\ (forall k v, lookup cred k = Some v -> lookup (heap s1 self) k = Some v)
    /\ forall (R' : remote) (address' : string) (save_data : bool),
         exists s2 c',
           get_device_credentials R' self address' false save_data s1 = (s2, Ok (Some c'))
           /\ calls s2 = calls s1
           /\ same_device_fields (credentials_of cred) c'.
Proof.
  intros Hnc Hres Hne Hitem Hcred Hc Hu.
  pose proof (has_credentials_nonempty _ Hc) as Hlen.
  assert (Hrun : exists s1,
             get_device_credentials R self address false true s
             = (s1, Ok (Some (credentials_of cred)))
             /\ calls s1 = calls s
             /\ exists m, heap s1 self = update m cred).
  { unfold get_device_credentials, find_credentials, the_item, update_from.
    cbv [bind ret lift raise read write cache_get get_cache].
    rewrite Hnc. cbn [negb andb].
    destruct Hres as [[Hl Hk] | [Hl Hk]]; rewrite Hl, ?Hk;
      cbn [key_truthy]; rewrite Hne; cbn [negb]; rewrite Hitem; cbn [orb];
      rewrite Hitem, Hcred, Hlen; cbn [negb]; rewrite Hitem;
      destruct (Nat.eqb self (login item));
      eexists; (split; [reflexivity|]); (split; [reflexivity|]);
      cbn; rewrite Nat.eqb_refl; eexists; reflexivity. }
  destruct Hrun as (s1 & Hrun & Hcalls & m & Hdata).
  assert (Hkeys : forall k v, lookup cred k = Some v -> lookup (heap s1 self) k = Some v).
  { intros k v Hk. rewrite Hdata. now apply lookup_update_in. }
  assert (Hdev : forall k, In k CONF_TUYA_DEVICE_KEYS ->
                 forall default, dict_get (heap s1 self) k default = dict_get cred k default
                                 /\ dict_get cred k default <> VNone).
  { intros k Hin default.
    destruct (has_credentials_lookup cred k Hc Hin) as (v & Hv & Hnn & Hget).
    unfold dict_get at 1. rewrite (Hkeys k v Hv), Hget. auto. }
  assert (Hc1 : _has_credentials (heap s1 self) = true).
  { unfold _has_credentials. apply forallb_forall. intros k Hin.
    destruct (Hdev k Hin VNone) as [-> Hnn].
    destruct (dict_get cred k VNone); [contradiction | reflexivity..]. }
  exists s1. repeat split; try assumption.
  intros R' address' save_data.
  destruct (fast_path_run R' self address' save_data s1 Hc1) as (s2 & Hrun2 & Hcalls2).
  exists s2, (credentials_of (heap s1 self)).
  split; [exact Hrun2|]. split; [exact Hcalls2|].
  unfold same_device_fields.
  cbn [credentials_of uuid local_key device_id category product_id device_name
       product_model product_name].
  repeat split; apply Hdev; cbn; auto 10.
Qed.

(** X14. [save_data] writes only when a credential is returned: after a call
    that answers [None] or raises, the manager's data is as before, but for
    the member of [AuthType] that a successful login replaces by its
    value. *)
Theorem failed_lookup_keeps_data (self : loc) (address : string)
    (force_update save_data : bool) (s : state) :
  (forall c, snd (get_device_credentials R self address force_update save_data s)
             <> Ok (Some c)) ->
  let s' := fst (get_device_credentials R self address force_update save_data s) in
  heap s' self = heap s self
  \/ exists v, lookup (heap s self) CONF_AUTH_TYPE = Some (VAuthType v)
               /\ heap s' self = assign (heap s self) CONF_AUTH_TYPE (VInt v).
Proof.
  intros Hnot. cbv zeta.
  pose proof (find_credentials_data_normalised R self address force_update s) as Hn.
  unfold get_device_credentials in *.
  destruct (find_credentials R self address force_update s) as [s1 [[item cred]|e]]
    eqn:Hfind; cbn [fst] in Hn.
  2:{ rewrite (bind_err _ _ _ _ _ Hfind). exact Hn. }
  rewrite (bind_ok _ _ _ _ _ Hfind) in *.
  destruct cred as [c|]; [|exact Hn].
  destruct (negb (Nat.eqb (List.length c) 0)); [|exact Hn].
  revert Hnot. unfold the_item, update_from.
  cbv [bind ret lift raise read write cache_get get_cache].
  destruct save_data.
  - destruct item as [k|].
    + destruct (lookup (_cache s1) k) as [it|].
      * destruct (Nat.eqb self (login it)); intros Hnot; exfalso;
          eapply Hnot; reflexivity.
      * intros _. exact Hn.
    + intros Hnot; exfalso; eapply Hnot; reflexivity.
  - intros Hnot; exfalso; eapply Hnot; reflexivity.
Qed.

End ResolverMore.

(** ** [build_cache] and [get_login_from_cache] *)

Lemma lookup_none_not_in {V} (m : list (string * V)) (k : string) :
  lookup m k = None -> ~ In k (map fst m).
Proof.
  induction m as [|[k0 v0] m IH]; cbn; intros H; [tauto|].
  destruct (String.eqb k0 k) eqn:E; [discriminate H|].
  apply String.eqb_neq in E. intros [Heq | Hin]; [congruence | now apply IH].
Qed.

Lemma logins_shared_refl data s : logins_shared data s s.
Proof. intros key item H. right. eauto. Qed.

Lemma logins_shared_trans data s1 s2 s3 :
  logins_shared data s1 s2 -> logins_shared data s2 s3 -> logins_shared data s1 s3.
Proof.
  intros H1 H2 key item H.
  destruct (H2 key item H) as [Hd | (old & Hold & Hl)]; [now left|].
  destruct (H1 key old Hold) as [Hd | (old' & Hold' & Hl')].
  - left. congruence.
  - right. exists old'. split; [assumption | congruence].
Qed.

Lemma heap_but_refl data s : heap_but data s s.
Proof. intros l _. reflexivity. Qed.

Lemma heap_but_trans data s1 s2 s3 :
  heap_but data s1 s2 -> heap_but data s2 s3 -> heap_but data s1 s3.
Proof. intros H1 H2 l Hl. now rewrite H2, H1. Qed.

#[local] Hint Resolve logins_shared_refl logins_shared_trans heap_but_refl
  heap_but_trans : core.

Lemma same_cache_logins_shared {A} data (m : M A) :
  preserves same_cache m -> preserves (logins_shared data) m.
Proof. intros H s key item Hk. right. rewrite (H s) in Hk. eauto. Qed.

Lemma same_heap_heap_but {A} data (m : M A) :
  preserves same_heap m -> preserves (heap_but data) m.
Proof. intros H s l _. apply H. Qed.

Section BuildCache.
Context {K : Const}.
Variable R : remote.

Lemma fill_cache_item_logins_shared data key :
  preserves (logins_shared data) (_fill_cache_item R key).
Proof.
  intros s k item Hk. right.
  destruct (fill_cache_item_fills_only R key s) as (_ & Hother & Hown).
  destruct (String.eqb k key) eqn:E.
  - apply String.eqb_eq in E. subst k.
    destruct (lookup (_cache s) key) as [old|].
    + destruct Hown as (item' & Hl & _ & Hlogin).
      exists old. split; [reflexivity | congruence].
    + congruence.
  - apply String.eqb_neq in E. rewrite (Hother k E) in Hk. eauto.
Qed.

Lemma login_logins_shared data add_to_cache :
  preserves (logins_shared data) (_login R data add_to_cache).
Proof.
  intros s key item. unfold _login, dict_item. run.
  repeat case_split; cbn [fst _cache set_heap set_cache]; intros Hk;
    try (right; eauto; fail);
    rewrite lookup_assign in Hk;
    match type of Hk with
    | (if ?b then _ else _) = _ => destruct b
    end;
    try (right; eauto; fail);
    inversion Hk; subst; left; reflexivity.
Qed.

Lemma write_heap_but data d : preserves (heap_but data) (write data d).
Proof.
  intros s l Hl. cbn. apply Nat.eqb_neq in Hl. now rewrite Hl.
Qed.

Lemma login_heap_but data add_to_cache :
  preserves (heap_but data) (_login R data add_to_cache).
Proof.
  intros s l Hl. apply Nat.eqb_neq in Hl.
  unfold _login. run. repeat case_split; cbn; try rewrite Hl; reflexivity.
Qed.

Hint Resolve fill_cache_item_logins_shared login_logins_shared write_heap_but
  login_heap_but : core.

Lemma build_entry_logins_shared data entry :
  preserves (logins_shared data) (build_entry R data entry).
Proof.
  unfold build_entry.
  repeat preserves_step; auto using same_cache_logins_shared.
Qed.

Lemma build_entry_heap_but data entry :
  preserves (heap_but data) (build_entry R data entry).
Proof.
  unfold build_entry.
  repeat preserves_step;
    auto using same_heap_heap_but, fill_cache_item_same_heap.
Qed.

Hint Resolve build_entry_logins_shared build_entry_heap_but : core.

(** X15. [build_cache] writes to no dictionary that existed before it: the
    data of every manager and the login dictionaries of the items cached
    earlier are as before, however the pass ends. *)
Theorem build_cache_keeps_dictionaries (tuya_entries ble_entries : list dict)
    (s : state) (l : loc) :
  l < next s ->
  heap (fst (build_cache R tuya_entries ble_entries s)) l = heap s l.
Proof.
  intros Hl. unfold build_cache, bind at 1, alloc.
  match goal with
  | |- heap (fst (?m ?s0)) l = _ =>
      assert (H : preserves (heap_but (next s)) m)
        by (repeat preserves_step; auto);
      rewrite (H s0 l) by lia
  end.
  cbn. destruct (Nat.eqb l (next s)) eqn:E; [|reflexivity].
  apply Nat.eqb_eq in E. lia.
Qed.

(** X16. The items [build_cache] logs in do not get a login dictionary of
    their own: each item of the cache after the pass either was there
    before with the same login reference, or refers to the one dictionary
    the pass allocates and refills for every configuration entry. *)
Theorem build_cache_shares_login (tuya_entries ble_entries : list dict) (s : state) :
  forall key item,
    lookup (_cache (fst (build_cache R tuya_entries ble_entries s))) key = Some item ->
    login item = next s
    \/ exists old, lookup (_cache s) key = Some old /\ login item = login old.
Proof.
  unfold build_cache, bind at 1, alloc.
  match goal with
  | |- forall key item, lookup (_cache (fst (?m ?s0))) key = Some item -> _ =>
      assert (H : preserves (logins_shared (next s)) m)
        by (repeat preserves_step; auto);
      exact (H s0)
  end.
Qed.

(** a context whose item has entries costs nothing *)
Lemma build_entry_skips data entry s key item :
  _get_cache_key (literal entry) = Ok key ->
  lookup (_cache s) key = Some item ->
  credentials item <> [] ->
  exists s',
    build_entry R data entry s = (s', Ok tt)
    /\ calls s' = calls s /\ _cache s' = _cache s.
Proof.
  intros Hkey Hitem Hne. unfold build_entry. run.
  cbn [heap set_heap _cache]. rewrite !Nat.eqb_refl.
  change (update [] entry) with (literal entry). rewrite Hkey, Hitem.
  destruct (credentials item) as [|e c]; [congruence|].
  cbn. eexists. repeat split; reflexivity.
Qed.

Lemma build_entries_skip data entries : forall s,
  (forall entry, In entry entries ->
     exists key item,
       _get_cache_key (literal entry) = Ok key
       /\ lookup (_cache s) key = Some item
       /\ credentials item <> []) ->
  exists s',
    for_each (build_entry R data) entries s = (s', Ok tt)
    /\ calls s' = calls s /\ _cache s' = _cache s.
Proof.
  induction entries as [|entry entries IH]; intros s Hall.
  - exists s. repeat split; reflexivity.
  - destruct (Hall entry (or_introl eq_refl)) as (key & item & Hkey & Hitem & Hne).
    destruct (build_entry_skips data entry s key item Hkey Hitem Hne)
      as (s1 & Hrun & Hcalls & Hcache).
    destruct (IH s1) as (s' & Hrest & Hcalls' & Hcache').
    { intros e He. rewrite Hcache. apply Hall. now right. }
    exists s'. rewrite (for_each_continues _ _ _ _ _ Hrun).
    split; [exact Hrest|]. split; [now rewrite Hcalls' | now rewrite Hcache'].
Qed.

(** X17. [build_cache] is free for contexts that are populated: when every
    configuration entry has an item with a non-empty sub-map under its
    fingerprint, the pass makes no request and leaves the cache as it
    is. *)
Theorem build_cache_skips_populated (tuya_entries ble_entries : list dict) (s : state) :
  (forall entry, In entry (tuya_entries ++ ble_entries)%list ->
     exists key item,
       _get_cache_key (literal entry) = Ok key
       /\ lookup (_cache s) key = Some item
       /\ credentials item <> []) ->
  exists s',
    build_cache R tuya_entries ble_entries s = (s', Ok tt)
    /\ calls s' = calls s /\ _cache s' = _cache s.
Proof.
  intros Hall. unfold build_cache, bind at 1, alloc.
  match goal with
  | |- exists s', (_ ;;; _) ?s0 = _ /\ _ => set (s0' := s0)
  end.
  destruct (build_entries_skip (next s) tuya_entries s0') as (s1 & Hrun1 & Hc1 & Hk1).
  { intros e He. apply Hall, in_or_app. now left. }
  destruct (build_entries_skip (next s) ble_entries s1) as (s2 & Hrun2 & Hc2 & Hk2).
  { intros e He. rewrite Hk1. apply Hall, in_or_app. now right. }
  exists s2. rewrite (bind_ok _ _ _ _ _ Hrun1), Hrun2.
  split; [reflexivity|]. split; [now rewrite Hc2, Hc1 | now rewrite Hk2, Hk1].
Qed.

(** X18. [get_login_from_cache] copies the login of the first item of the
    cache, in insertion order, into the manager's data: every key of that
    login reads as there, every other key of the data is kept, and the
    cache is as before; on an empty cache nothing happens. *)
Theorem get_login_from_cache_copies_first (self : loc) (s : state) :
  match _cache s with
  | [] => get_login_from_cache self s = (s, Ok tt)
  | (_, item) :: _ =>
      unique_keys (heap s (login item)) ->
      exists s',
        get_login_from_cache self s = (s', Ok tt)
        /\ _cache s' = _cache s
        /\ (forall k v, lookup (heap s (login item)) k = Some v ->
                        lookup (heap s' self) k = Some v)
        /\ (forall k, lookup (heap s (login item)) k = None ->
                      lookup (heap s' self) k = lookup (heap s self) k)
  end.
Proof.
  unfold get_login_from_cache, update_from. run.
  destruct (_cache s) as [|[key item] rest] eqn:Hc; [reflexivity|].
  intros Hu. destruct (Nat.eqb self (login item)) eqn:E.
  - apply Nat.eqb_eq in E. subst self.
    exists s. repeat split; auto.
  - eexists. split; [reflexivity|]. split; [exact Hc|].
    cbn [heap set_heap]. rewrite Nat.eqb_refl. split.
    + intros k v Hk. now apply lookup_update_in.
    + intros k Hk. apply lookup_update_not_in. now apply lookup_none_not_in.
Qed.

End BuildCache.

(** ** [_try_login] *)

Lemma assign_not_empty {V} (m : list (string * V)) (k : string) (v : V) :
  Nat.eqb (List.length (assign m k v)) 0 = false.
Proof. destruct m as [|[k0 v0] m]; cbn; [reflexivity|]. now destruct (String.eqb k0 k). Qed.

Ltac case_any :=
  match goal with
  | |- context [match ?x with _ => _ end] => destruct x eqn:?
  end.

Section TryLogin.
Context {K : Const} {F : FlowConst}.
Variable R : remote.

(** a successful caching login replaces the member of [AuthType] in the
    data by its value *)
Lemma login_normalises (data : loc) (s s' : state) (response : pyval) (v : Z) :
  _login R data true s = (s', Ok response) ->
  _is_login_success response = Ok true ->
  lookup (heap s data) CONF_AUTH_TYPE = Some (VAuthType v) ->
  heap s' data = assign (heap s data) CONF_AUTH_TYPE (VInt v).
Proof.
  intros Hrun Hsucc Hauth. revert Hrun. unfold _login, dict_item. run.
  rewrite Hauth.
  repeat case_split; intros Hrun; inversion Hrun; subst; clear Hrun;
    try (rewrite login_success_not_empty in Hsucc; discriminate Hsucc);
    try congruence;
    cbn [heap set_heap set_cache]; now rewrite Nat.eqb_refl.
Qed.

Lemma success_is_login_success (response success : pyval) :
  py_get response TUYA_RESPONSE_SUCCESS (VBool false) = Ok success ->
  _is_login_success response = Ok (truthy success).
Proof. unfold _is_login_success. now intros ->. Qed.

Lemma try_app_types_step (data : loc) (app_type : string) (rest : list string)
    (s : state) :
  try_app_types R data app_type rest s
  = match _login R data true (round_state data app_type s) with
    | (s1, Ok response) =>
        match py_get response TUYA_RESPONSE_SUCCESS (VBool false) with
        | Ok success =>
            if truthy success then (s1, Ok (true, response))
            else match rest with
                 | [] => (s1, Ok (false, response))
                 | next_type :: rest' => try_app_types R data next_type rest' s1
                 end
        | Err e => (s1, Err e)
        end
    | (s1, Err e) => (s1, Err e)
    end.
Proof.
  unfold round_state.
  destruct rest; cbn [try_app_types]; run; cbn [heap set_heap];
    rewrite !Nat.eqb_refl;
    match goal with
    | |- context [_login R data true ?s0] =>
        destruct (_login R data true s0) as [s1 [response|e]]
    end; try reflexivity;
    destruct (py_get response TUYA_RESPONSE_SUCCESS (VBool false)) as [success|e];
    try reflexivity; destruct (truthy success); reflexivity.
Qed.

Lemma round_state_logins data app_type s :
  logins (calls (fst (_login R data true (round_state data app_type s))))
  = logins (calls s) + 1.
Proof.
  rewrite login_logins. unfold round_state. cbn [heap set_heap calls].
  now rewrite Nat.eqb_refl, assign_not_empty.
Qed.

Lemma round_state_auth_type data app_type s :
  lookup (heap (round_state data app_type s) data) CONF_AUTH_TYPE
  = Some (VAuthType (if String.eqb app_type "" then CUSTOM else SMART_HOME)).
Proof.
  unfold round_state. cbn [heap set_heap]. rewrite Nat.eqb_refl.
  apply lookup_assign_same.
Qed.

Lemma round_state_heap_but data app_type s : heap_but data s (round_state data app_type s).
Proof.
  intros l Hl. apply Nat.eqb_neq in Hl. unfold round_state. cbn [heap set_heap].
  now rewrite Hl.
Qed.

(** the loop logs in once per round, and runs all its rounds unless a
    login succeeds or an exception ends it *)
Lemma try_app_types_logins data : forall rest app_type s,
  logins (calls s) + 1 <= logins (calls (fst (try_app_types R data app_type rest s)))
  /\ logins (calls (fst (try_app_types R data app_type rest s)))
     <= logins (calls s) + S (List.length rest)
  /\ forall response,
       snd (try_app_types R data app_type rest s) = Ok (false, response) ->
       logins (calls (fst (try_app_types R data app_type rest s)))
       = logins (calls s) + S (List.length rest).
Proof.
  induction rest as [|next_type rest IH]; intros app_type s;
    rewrite try_app_types_step;
    pose proof (round_state_logins data app_type s) as Hl;
    destruct (_login R data true (round_state data app_type s)) as [s1 [response|e]];
    cbn [fst] in Hl; cbn [List.length];
    try (cbn [fst snd]; repeat split; try lia; discriminate);
    destruct (py_get response TUYA_RESPONSE_SUCCESS (VBool false)) as [success|e];
    try (cbn [fst snd]; repeat split; try lia; discriminate);
    destruct (truthy success);
    try (cbn [fst snd]; repeat split; try lia; discriminate).
  destruct (IH next_type s1) as (H1 & H2 & H3).
  split; [lia|]. split; [lia|]. intros r Hr. rewrite (H3 r Hr). lia.
Qed.

(** what a successful round leaves *)
Lemma try_app_types_success data : forall rest app_type s s' response,
  try_app_types R data app_type rest s = (s', Ok (true, response)) ->
  _is_login_success response = Ok true
  /\ (exists key item,
        _get_cache_key (heap s' data) = Ok key
        /\ lookup (_cache s') key = Some item
        /\ login item = data)
  /\ exists v, lookup (heap s' data) CONF_AUTH_TYPE = Some (VInt v)
               /\ (v = CUSTOM \/ v = SMART_HOME).
Proof.
  induction rest as [|next_type rest IH]; intros app_type s s' response;
    rewrite try_app_types_step;
    destruct (_login R data true (round_state data app_type s)) as [s1 [resp|e]]
      eqn:Hlogin; try discriminate;
    destruct (py_get resp TUYA_RESPONSE_SUCCESS (VBool false)) as [success|e]
      eqn:Hget; try discriminate;
    pose proof (success_is_login_success _ _ Hget) as Hsucc;
    destruct (truthy success); try discriminate; try (apply IH);
    intros Hrun; inversion Hrun; subst; clear Hrun;
    (split; [exact Hsucc|]);
    (split;
     [destruct (login_success_cached R data _ _ _ Hlogin Hsucc)
        as (key & item & Hk & Hi & Hl & _); eauto
     |rewrite (login_normalises data _ _ _ _ Hlogin Hsucc
                 (round_state_auth_type data app_type s));
      eexists; split; [apply lookup_assign_same|];
      destruct (String.eqb app_type ""); auto]).
Qed.

Lemma try_app_types_heap_but data : forall rest app_type,
  preserves (heap_but data) (try_app_types R data app_type rest).
Proof.
  induction rest as [|next_type rest IH]; intros app_type s;
    rewrite try_app_types_step;
    pose proof (login_heap_but R data true (round_state data app_type s)) as Hl;
    pose proof (round_state_heap_but data app_type s) as Hr;
    destruct (_login R data true (round_state data app_type s)) as [s1 [resp|e]];
    cbn [fst] in Hl;
    assert (H1 : heap_but data s s1) by (eapply heap_but_trans; eassumption);
    try exact H1;
    destruct (py_get resp TUYA_RESPONSE_SUCCESS (VBool false)) as [success|e];
    try exact H1; destruct (truthy success); try exact H1.
  eapply heap_but_trans; [exact H1 | apply IH].
Qed.

Lemma select_country_none (user_input : dict) (v : pyval) :
  dict_item user_input CONF_COUNTRY_CODE = Ok v ->
  (forall country, In country TUYA_COUNTRIES -> pyval_is_str (name country) v = false) ->
  select_country user_input = Ok [].
Proof.
  intros Hv Hnone. unfold select_country. rewrite Hv.
  destruct TUYA_COUNTRIES as [|c l] eqn:Hc; [reflexivity|].
  f_equal. rewrite <- Hc in *. clear Hc.
  induction TUYA_COUNTRIES as [|c' l' IH]; [reflexivity|].
  cbn. rewrite (Hnone c' (or_introl eq_refl)). apply IH.
  intros country Hin. apply Hnone. now right.
Qed.

(** X19. When no country has the name the user chose, [_try_login] returns
    [None] with ["invalid_country_code"] under ["base"] in [errors]; it
    does not log in, and nothing else changes. *)
Theorem try_login_unknown_country (user_input : dict) (errors placeholders : loc)
    (s : state) (v : pyval) :
  dict_item user_input CONF_COUNTRY_CODE = Ok v ->
  (forall country, In country TUYA_COUNTRIES -> pyval_is_str (name country) v = false) ->
  _try_login R user_input errors placeholders s
  = (set_heap s errors (assign (heap s errors) "base" (VStr "invalid_country_code")),
     Ok None).
Proof.
  intros Hv Hnone. unfold _try_login. run.
  now rewrite (select_country_none user_input v Hv Hnone), Hv.
Qed.

Ltac loop_facts :=
  match goal with
  | H : try_app_types R ?data ?a ?rest ?s0 = (?s1, ?r) |- _ =>
      let L := fresh "Hlogins" in
      let B := fresh "Hbut" in
      pose proof (try_app_types_logins data rest a s0) as L;
      pose proof (try_app_types_heap_but data rest a s0) as B;
      rewrite H in L, B; cbn [fst snd List.length calls set_heap] in L, B
  end.

(** X20. [_try_login] asks the client to log in at most three times, however
    it ends. *)
Theorem try_login_at_most_three (user_input : dict) (errors placeholders : loc)
    (s : state) :
  logins (calls (fst (_try_login R user_input errors placeholders s)))
  <= logins (calls s) + 3.
Proof.
  unfold _try_login, alloc. run.
  repeat (case_split || case_any); cbn [fst calls set_heap]; try lia;
    loop_facts; lia.
Qed.

(** X21. When [_try_login] returns login data, the data is a dictionary of
    its own, a login with it succeeded and is cached under its
    fingerprint, so that [_check_login] on it answers [True]; the data
    holds the integer value of [AuthType.CUSTOM] or [AuthType.SMART_HOME],
    not the member; between one and three logins were made; and no
    dictionary that existed before, [errors] and [placeholders] included,
    was written to. *)
Theorem try_login_success (user_input : dict) (errors placeholders : loc)
    (s s' : state) (data : loc) :
  _try_login R user_input errors placeholders s = (s', Ok (Some data)) ->
  data = next s
  /\ _check_login data s' = (s', Ok true)
  /\ (exists v, lookup (heap s' data) CONF_AUTH_TYPE = Some (VInt v)
                /\ (v = CUSTOM \/ v = SMART_HOME))
  /\ (forall l, l < next s -> heap s' l = heap s l)
  /\ logins (calls s) + 1 <= logins (calls s')
  /\ logins (calls s') <= logins (calls s) + 3.
Proof.
  unfold _try_login, alloc. run.
  repeat (case_split || case_any); intros Hrun; inversion Hrun; subst; clear Hrun.
  loop_facts.
  match goal with
  | H : try_app_types R _ _ _ _ = _ |- _ =>
      destruct (try_app_types_success _ _ _ _ _ _ H)
        as (Hsucc & (key & item & Hkey & Hitem & _) & Hauth)
  end.
  split; [reflexivity|].
  split; [unfold _check_login; run; now rewrite Hkey, Hitem|].
  split; [exact Hauth|].
  split; [|lia].
  intros x Hx. rewrite Hbut by lia. cbn.
  destruct (Nat.eqb x (next s)) eqn:E; [apply Nat.eqb_eq in E; lia | reflexivity].
Qed.

(** X22. When [_try_login] returns [None], [errors] says why under ["base"]:
    either no country matched and nothing was sent, or the country was
    found, exactly three logins were made and none succeeded. *)
Theorem try_login_failure (user_input : dict) (errors placeholders : loc)
    (s s' : state) :
  _try_login R user_input errors placeholders s = (s', Ok None) ->
  errors < next s ->
  placeholders <> errors ->
  (lookup (heap s' errors) "base" = Some (VStr "invalid_country_code")
   /\ calls s' = calls s /\ _cache s' = _cache s)
  \/ (lookup (heap s' errors) "base" = Some (VStr "login_error")
      /\ logins (calls s') = logins (calls s) + 3).
Proof.
  intros Hrun Herr Hp. revert Hrun. unfold _try_login, alloc. run.
  apply Nat.eqb_neq in Hp. rewrite Nat.eqb_sym in Hp.
  repeat (case_split || case_any); intros Hrun; inversion Hrun; subst; clear Hrun;
    try (left; cbn; rewrite Nat.eqb_refl, lookup_assign_same;
         repeat split; reflexivity);
    right; loop_facts;
    destruct Hlogins as (_ & _ & Hl); specialize (Hl _ eq_refl);
    cbn [heap calls set_heap]; rewrite ?Hp, ?Nat.eqb_refl, lookup_assign_same;
    (split; [reflexivity | lia]).
Qed.

End TryLogin.

(** ** The login step followed by the device step *)

Lemma in_assign_keys {V} (m : list (string * V)) (k x : string) (v : V) :
  In x (map fst (assign m k v)) -> x = k \/ In x (map fst m).
Proof.
  induction m as [|[k0 v0] m IH]; cbn.
  - intros [H | []]. now left.
  - destruct (String.eqb k0 k); cbn; intros [H | H]; auto.
    destruct (IH H); auto.
Qed.

Lemma assign_unique_keys {V} (m : list (string * V)) (k : string) (v : V) :
  unique_keys m -> unique_keys (assign m k v).
Proof.
  unfold unique_keys. induction m as [|[k0 v0] m IH]; cbn; intros Hnd.
  - constructor; [intros [] | constructor].
  - apply NoDup_cons_iff in Hnd as [Hnotin Hnd].
    destruct (String.eqb k0 k) eqn:E; cbn.
    + constructor; assumption.
    + constructor; [|now apply IH].
      intros Hin. apply in_assign_keys in Hin as [-> | Hin]; [|contradiction].
      now rewrite String.eqb_refl in E.
Qed.

Lemma update_unique_keys {V} (c m : list (string * V)) :
  unique_keys m -> unique_keys (update m c).
Proof.
  revert m. induction c as [|[k v] c IH]; intros m Hm; [exact Hm|].
  unfold update. cbn [fold_left fst snd]. apply IH. now apply assign_unique_keys.
Qed.

Lemma literal_unique_keys {V} (kvs : list (string * V)) : unique_keys (literal kvs).
Proof. apply update_unique_keys. constructor. Qed.

Section FlowSteps.
Context {K : Const} {F : FlowConst}.
Variable R : remote.

Lemma cache_key_not_empty (d : dict) (k : string) :
  _get_cache_key d = Ok k -> Nat.eqb (String.length k) 0 = false.
Proof.
  unfold _get_cache_key. cbn [json_dumps].
  match goal with
  | |- match ?m with _ => _ end = _ -> _ => destruct m
  end; intros H; inversion H; reflexivity.
Qed.

(** a full login reads the same from any dictionary that agrees on the
    login keys *)
Lemma login_keys_agree (d d' : dict) :
  (forall k, In k CONF_TUYA_LOGIN_KEYS -> dict_get d' k VNone = dict_get d k VNone) ->
  _has_login d' = _has_login d /\ _get_cache_key d' = _get_cache_key d.
Proof.
  intros H. unfold _has_login, _get_cache_key, key_dict.
  split.
  - induction CONF_TUYA_LOGIN_KEYS as [|k l IH]; [reflexivity|].
    cbn [forallb]. rewrite (H k (or_introl eq_refl)), IH; [reflexivity|].
    intros k' Hk'. apply H. now right.
  - do 3 f_equal. apply map_ext_in. intros k Hk. now rewrite (H k Hk).
Qed.

Lemma has_login_lookup (d : dict) (k : string) :
  _has_login d = true -> In k CONF_TUYA_LOGIN_KEYS ->
  exists v, lookup d k = Some v.
Proof.
  unfold _has_login. intros H Hin.
  rewrite forallb_forall in H. specialize (H k Hin).
  unfold dict_get in H. destruct (lookup d k) as [v|]; [eauto | discriminate H].
Qed.


(** a successful caching login leaves, under the key of the data, an item
    with the sub-map the key had before, or an empty one *)
Lemma login_success_item (data : loc) (s s' : state) (response : pyval) :
  _login R data true s = (s', Ok response) ->
  _is_login_success response = Ok true ->
  exists key item,
    _get_cache_key (heap s' data) = Ok key
    /\ lookup (_cache s') key = Some item
    /\ credentials item
       = match lookup (_cache s) key with
         | Some old => credentials old
         | None => []
         end.
Proof.
  intros Hrun Hsucc. revert Hrun. unfold _login, dict_item. run.
  repeat case_split; intros Hrun; inversion Hrun; subst; clear Hrun;
    try (rewrite login_success_not_empty in Hsucc; discriminate Hsucc);
    try congruence;
    cbn [heap _cache set_heap set_cache] in *;
    eexists; eexists;
    (split; [eassumption|]); rewrite lookup_assign_same;
    (split; [reflexivity|]);
    match goal with
    | H : lookup (_cache s) _ = _ |- _ => rewrite H
    end; reflexivity.
Qed.

(** a login that does not succeed leaves the cache as it is *)
Lemma login_refused_same_cache (data : loc) (s s' : state) (response : pyval) :
  _login R data true s = (s', Ok response) ->
  _is_login_success response = Ok false ->
  _cache s' = _cache s.
Proof.
  intros Hrun Hsucc. revert Hrun. unfold _login, dict_item. run.
  repeat case_split; intros Hrun; inversion Hrun; subst; clear Hrun;
    try reflexivity; congruence.
Qed.

Lemma round_state_cache data app_type s : _cache (round_state data app_type s) = _cache s.
Proof. reflexivity. Qed.

Lemma try_app_types_item data : forall rest app_type s s' response,
  try_app_types R data app_type rest s = (s', Ok (true, response)) ->
  exists key item,
    _get_cache_key (heap s' data) = Ok key
    /\ lookup (_cache s') key = Some item
    /\ credentials item
       = match lookup (_cache s) key with
         | Some old => credentials old
         | None => []
         end.
Proof.
  induction rest as [|next_type rest IH]; intros app_type s s' response;
    rewrite try_app_types_step;
    destruct (_login R data true (round_state data app_type s)) as [s1 [resp|e]]
      eqn:Hlogin; try discriminate;
    destruct (py_get resp TUYA_RESPONSE_SUCCESS (VBool false)) as [success|e]
      eqn:Hget; try discriminate;
    pose proof (success_is_login_success _ _ Hget) as Hsucc;
    destruct (truthy success); try discriminate;
    try (intros Hrun; inversion Hrun; subst; clear Hrun;
         exact (login_success_item data _ _ _ Hlogin Hsucc)).
  intros Hrun. destruct (IH _ _ _ _ Hrun) as (key & item & Hk & Hi & Hc).
  exists key, item. split; [exact Hk|]. split; [exact Hi|].
  now rewrite (login_refused_same_cache data _ _ _ Hlogin Hsucc) in Hc.
Qed.

Lemma try_app_types_unique_keys data : forall rest app_type s,
  unique_keys (heap s data) ->
  unique_keys (heap (fst (try_app_types R data app_type rest s)) data).
Proof.
  assert (Hround : forall app_type s,
             unique_keys (heap s data) ->
             unique_keys (heap (fst (_login R data true (round_state data app_type s))) data)).
  { intros app_type s Hu.
    assert (H0 : unique_keys (heap (round_state data app_type s) data)).
    { unfold round_state. cbn [heap set_heap]. rewrite Nat.eqb_refl.
      now do 2 apply assign_unique_keys. }
    destruct (login_data_normalised R data true (round_state data app_type s))
      as [-> | (v & _ & ->)]; [exact H0 | now apply assign_unique_keys]. }
  induction rest as [|next_type rest IH]; intros app_type s Hu;
    rewrite try_app_types_step;
    specialize (Hround app_type s Hu);
    destruct (_login R data true (round_state data app_type s)) as [s1 [resp|e]];
    cbn [fst] in Hround; try exact Hround;
    destruct (py_get resp TUYA_RESPONSE_SUCCESS (VBool false)) as [success|e];
    try exact Hround; destruct (truthy success); try exact Hround.
  now apply IH.
Qed.

(** a call without [force_update] that finds its item answers from the
    sub-map of the item and makes no request *)
Lemma cache_hit_run (self : loc) (address key : string) (save_data : bool)
    (s : state) (item : TuyaCloudCacheItem) :
  _has_credentials (heap s self) = false ->
  _has_login (heap s self) = true ->
  _get_cache_key (heap s self) = Ok key ->
  lookup (_cache s) key = Some item ->
  exists s',
    get_device_credentials R self address false save_data s
    = (s', Ok (answer_of item address))
    /\ calls s' = calls s
    /\ (answer_of item address = None -> s' = s).
Proof.
  intros Hnc Hl Hk Hitem.
  pose proof (cache_key_not_empty _ _ Hk) as Hne.
  unfold get_device_credentials, find_credentials, the_item, update_from, answer_of.
  cbv [bind ret lift raise read write cache_get get_cache].
  rewrite Hnc. cbn [negb andb]. rewrite Hl, Hk.
  cbn [key_truthy]. rewrite Hne. cbn [negb]. rewrite Hitem. cbn [orb].
  rewrite Hitem.
  destruct (lookup (credentials item) address) as [c|];
    [|eexists; repeat split; reflexivity].
  destruct (negb (Nat.eqb (List.length c) 0));
    [|eexists; repeat split; reflexivity].
  destruct save_data; [rewrite Hitem; destruct (Nat.eqb self (login item))|];
    eexists; (split; [reflexivity|]); (split; [reflexivity|]); discriminate.
Qed.

(** X23. The login step of the configuration flow followed by its device
    step.  After [_try_login] returned login data that holds a full login
    and the flow merged it into the data of its manager, a call of
    [get_device_credentials] without [force_update] finds the item the
    login cached and makes no request, whatever it answers; and when the
    fingerprint was not in the cache before the login and the manager's
    data holds no device credentials, the call answers [None] and changes
    nothing: the sub-map of the new item is empty and is not filled. *)
Theorem first_lookup_after_login (user_input : dict) (errors placeholders self : loc)
    (address : string) (save_data : bool) (s s1 : state) (data : loc) :
  _try_login R user_input errors placeholders s = (s1, Ok (Some data)) ->
  self < next s ->
  _has_login (heap s1 data) = true ->
  let s2 := fst (update_from self data s1) in
  (exists s3 r,
     get_device_credentials R self address false save_data s2 = (s3, Ok r)
     /\ calls s3 = calls s2)
  /\ (_has_credentials (heap s2 self) = false ->
      (forall key, _get_cache_key (heap s1 data) = Ok key ->
                   lookup (_cache s) key = None) ->
      get_device_credentials R self address false save_data s2 = (s2, Ok None)).
Proof.
  intros Hrun Hself Hlogin.
  assert (Hfacts : data = next s
            /\ heap s1 self = heap s self
            /\ unique_keys (heap s1 data)
            /\ exists key item,
                 _get_cache_key (heap s1 data) = Ok key
                 /\ lookup (_cache s1) key = Some item
                 /\ credentials item
                    = match lookup (_cache s) key with
                      | Some old => credentials old
                      | None => []
                      end).
  { revert Hrun. unfold _try_login, alloc. run.
    repeat (case_split || case_any); intros Hrun; inversion Hrun; subst; clear Hrun.
    match goal with
    | H : try_app_types R ?d ?a ?rest ?s0 = _ |- _ =>
        pose proof (try_app_types_heap_but R d rest a s0) as Hbut;
        pose proof (try_app_types_unique_keys d rest a s0) as Hu;
        pose proof (try_app_types_item _ _ _ _ _ _ H) as Hitem;
        rewrite H in Hbut, Hu; cbn [fst] in Hbut, Hu
    end.
    split; [reflexivity|]. split.
    - rewrite Hbut by lia. cbn.
      destruct (Nat.eqb self (next s)) eqn:E; [apply Nat.eqb_eq in E; lia | reflexivity].
    - split; [apply Hu; cbn [heap set_heap]; rewrite Nat.eqb_refl; apply literal_unique_keys|].
      exact Hitem. }
  destruct Hfacts as (-> & Hsame & Hu & key & item & Hkey & Hitem & Hcred).
  assert (Hneq : Nat.eqb self (next s) = false) by (apply Nat.eqb_neq; lia).
  cbv zeta. unfold update_from. rewrite Hneq. run. cbn [fst].
  set (s2 := set_heap s1 self (update (heap s1 self) (heap s1 (next s)))).
  assert (Hdata : heap s2 self = update (heap s1 self) (heap s1 (next s))).
  { unfold s2. cbn. now rewrite Nat.eqb_refl. }
  destruct (login_keys_agree (heap s1 (next s)) (heap s2 self)) as [Hl2 Hk2].
  { intros k Hin. destruct (has_login_lookup _ k Hlogin Hin) as [v Hv].
    unfold dict_get. rewrite Hdata, (lookup_update_in _ _ _ _ Hu Hv), Hv. reflexivity. }
  rewrite Hlogin in Hl2. rewrite Hkey in Hk2.
  assert (Hitem2 : lookup (_cache s2) key = Some item) by exact Hitem.
  split.
  - destruct (_has_credentials (heap s2 self)) eqn:Hc.
    + destruct (fast_path_run R self address save_data s2 Hc) as (s3 & Hr & Hcalls).
      eauto.
    + destruct (cache_hit_run self address key save_data s2 item Hc Hl2 Hk2 Hitem2)
        as (s3 & Hr & Hcalls & _).
      eauto.
  - intros Hc Hnew.
    destruct (cache_hit_run self address key save_data s2 item Hc Hl2 Hk2 Hitem2)
      as (s3 & Hr & _ & Hnone).
    assert (Ha : answer_of item address = None).
    { unfold answer_of. rewrite Hcred, (Hnew key Hkey). reflexivity. }
    rewrite Hr, Ha, (Hnone Ha). reflexivity.
Qed.

End FlowSteps.

(** ** A member of [AuthType] in the data of a manager *)

Section EnumMember.
Context {K : Const}.
Variable R : remote.

(** X24. A member of [AuthType] in the data of a manager that holds a full
    login stops every lookup that needs the cache key: the fingerprint
    cannot be serialised, so [get_device_credentials], unless it answers
    from the data, and [_check_login] raise [TypeError] before any request,
    and the store is as before.  Only a successful caching login, which
    replaces the member by its value, makes the key computable. *)
Theorem enum_member_blocks_lookup (self : loc) (address : string)
    (force_update save_data : bool) (s : state) (v : Z) :
  _has_login (heap s self) = true ->
  lookup (heap s self) CONF_AUTH_TYPE = Some (VAuthType v) ->
  force_update = true \/ _has_credentials (heap s self) = false ->
  get_device_credentials R self address force_update save_data s = (s, Err TypeError)
  /\ _check_login self s = (s, Err TypeError)
  /\ forall s' response,
       _login R self true s = (s', Ok response) ->
       _is_login_success response = Ok true ->
       heap s' self = assign (heap s self) CONF_AUTH_TYPE (VInt v)
       /\ exists key, _get_cache_key (heap s' self) = Ok key.
Proof.
  intros Hl Hauth Hslow.
  pose proof (cache_key_enum_member _ v Hauth) as Hkey.
  split; [|split].
  - unfold get_device_credentials, find_credentials. run.
    assert (Hfast : negb force_update && _has_credentials (heap s self) = false).
    { destruct Hslow as [-> | ->]; [reflexivity | apply andb_false_r]. }
    now rewrite Hfast, Hl, Hkey.
  - unfold _check_login. run. now rewrite Hkey.
  - intros s' response Hrun Hsucc.
    destruct (login_success_cached R self s s' response Hrun Hsucc)
      as (key & item & Hk & _).
    split; [|eauto].
    revert Hrun. unfold _login, dict_item. run. rewrite Hauth.
    repeat case_split; intros Hrun; inversion Hrun; subst; clear Hrun;
      try (rewrite login_success_not_empty in Hsucc; discriminate Hsucc);
      try congruence;
      cbn [heap set_heap set_cache]; now rewrite Nat.eqb_refl.
Qed.

End EnumMember.

(** ** Callers with one fingerprint *)

Section Await.
Context {K : Const}.
Variable R : remote.

(** [_login] is its two halves run without a pause *)
Lemma login_cut (data : loc) (add_to_cache : bool) (s : state) :
  _login R data add_to_cache s
  = (sent <- login_send R data ;; login_resume data add_to_cache sent) s.
Proof.
  unfold _login, login_send, login_resume, connect_of. run.
  destruct (Nat.eqb (List.length (heap s data)) 0); [reflexivity|].
  destruct (R (calls s) _) as [response|e]; reflexivity.
Qed.

Lemma get_device_credentials_via_login (self : loc) (address : string)
    (force_update save_data : bool) :
  get_device_credentials_via R (_login R self true) self address force_update save_data
  = get_device_credentials R self address force_update save_data.
Proof. reflexivity. Qed.

(** what is awaited matters by what it does only *)
Lemma get_device_credentials_via_ext (awaited awaited' : M pyval) (self : loc)
    (address : string) (force_update save_data : bool) (s : state) :
  (forall s0, awaited s0 = awaited' s0) ->
  get_device_credentials_via R awaited self address force_update save_data s
  = get_device_credentials_via R awaited' self address force_update save_data s.
Proof.
  intros H. unfold get_device_credentials_via, find_credentials_via. run.
  repeat case_split; rewrite ?H in *; congruence.
Qed.

(** without a second caller the overlapping run is the call itself *)
Lemma resolve_alone (first : caller) (s : state) :
  get_device_credentials_via R
    (sent <- login_send R (manager_of first) ;;
     login_resume (manager_of first) true sent)
    (manager_of first) (snd (fst first)) false (snd first) s
  = resolve R first s.
Proof.
  unfold resolve. rewrite <- get_device_credentials_via_login.
  apply get_device_credentials_via_ext. intros s0. symmetry. apply login_cut.
Qed.


Lemma update_from_heap_but target source :
  preserves (heap_but target) (update_from target source).
Proof.
  unfold update_from. destruct (Nat.eqb target source); [intros s l _; reflexivity|].
  intros s l Hl. cbn. apply Nat.eqb_neq in Hl. now rewrite Hl.
Qed.

(** [get_device_credentials] writes to no dictionary but the data of its
    manager *)
Lemma get_device_credentials_heap_but (self : loc) (address : string)
    (force_update save_data : bool) :
  preserves (heap_but self)
    (get_device_credentials R self address force_update save_data).
Proof.
  unfold get_device_credentials, find_credentials.
  repeat preserves_step;
    auto using login_heap_but, write_heap_but, update_from_heap_but,
      same_heap_heap_but, fill_cache_item_same_heap.
Qed.

(** a full login is not empty *)
Lemma has_login_nonempty (d : dict) :
  _has_login d = true -> Nat.eqb (List.length d) 0 = false.
Proof. destruct d; [discriminate | reflexivity]. Qed.

(** what follows the login in [get_device_credentials] asks for no other *)
Lemma via_logins (awaited : M pyval) (self : loc) (address : string)
    (save_data : bool) (s : state) (key : string) :
  _has_credentials (heap s self) = false ->
  _has_login (heap s self) = true ->
  _get_cache_key (heap s self) = Ok key ->
  lookup (_cache s) key = None ->
  logins (calls (fst (get_device_credentials_via R awaited self address false save_data s)))
  = logins (calls (fst (awaited s))).
Proof.
  intros Hc Hl Hk Hnone.
  pose proof (cache_key_not_empty _ _ Hk) as Hne.
  unfold get_device_credentials_via.
  rewrite bind_same_logins.
  2:{ intros [item cred]. repeat preserves_step; auto using same_logins_write. }
  unfold find_credentials_via.
  rewrite (bind_ok (read self) _ s s (heap s self) eq_refl).
  rewrite Hc, Hl. cbn [negb andb].
  rewrite (bind_ok _ _ s s (Some key)) by (unfold bind, lift, ret; now rewrite Hk).
  cbn [key_truthy]. rewrite Hne. cbn [negb].
  rewrite (bind_ok _ _ s s None) by (unfold cache_get; now rewrite Hnone).
  cbv zeta. cbn [orb].
  rewrite bind_same_logins.
  2:{ intros item. repeat preserves_step. }
  rewrite bind_same_logins.
  2:{ intros response.
      repeat preserves_step; auto using fill_cache_item_same_logins. }
  reflexivity.
Qed.

(** a caller whose fingerprint is not in the cache logs in once *)
Lemma unseen_fingerprint_logs_in (self : loc) (address : string)
    (save_data : bool) (s : state) (key : string) :
  _has_credentials (heap s self) = false ->
  _has_login (heap s self) = true ->
  _get_cache_key (heap s self) = Ok key ->
  lookup (_cache s) key = None ->
  logins (calls (fst (get_device_credentials R self address false save_data s)))
  = logins (calls s) + 1.
Proof.
  intros Hc Hl Hk Hnone.
  rewrite <- get_device_credentials_via_login.
  rewrite (via_logins _ self address save_data s key Hc Hl Hk Hnone).
  now rewrite login_logins, (has_login_nonempty _ Hl).
Qed.


Lemma login_resume_same_logins data add_to_cache sent :
  preserves same_logins (login_resume data add_to_cache sent).
Proof.
  unfold login_resume. destruct sent as [[api [response|e]]|];
    repeat preserves_step;
    auto using same_logins_write, same_logins_put_cache.
Qed.

(** two overlapping callers with a fingerprint that is not in the cache
    both log in *)
Lemma overlapping_logins (first second : caller) (s : state) (key : string) :
  (forall c, c = first \/ c = second ->
     _has_credentials (heap s (manager_of c)) = false
     /\ _has_login (heap s (manager_of c)) = true
     /\ _get_cache_key (heap s (manager_of c)) = Ok key) ->
  lookup (_cache s) key = None ->
  logins (calls (fst (resolve_overlapping R first second s))) = logins (calls s) + 2.
Proof.
  intros Hboth Hnone.
  destruct (Hboth first (or_introl eq_refl)) as (Hc1 & Hl1 & Hk1).
  destruct (Hboth second (or_intror eq_refl)) as (Hc2 & Hl2 & Hk2).
  unfold resolve_overlapping.
  rewrite (via_logins _ _ _ _ s key Hc1 Hl1 Hk1 Hnone).
  unfold bind at 1, login_send, bind at 1, read.
  rewrite (has_login_nonempty _ Hl1).
  unfold bind at 1, task. cbn [fst].
  rewrite login_resume_same_logins.
  unfold resolve.
  rewrite (unseen_fingerprint_logs_in _ _ _ _ key); try assumption.
  cbn [calls]. rewrite logins_app. cbn [is_connect connect_of]. lia.
Qed.

(** the first caller of a fingerprint, once the client accepts its login,
    leaves an item under the fingerprint *)
Lemma first_caller_caches (self : loc) (address : string) (save_data : bool)
    (s : state) (key : string) (response : pyval) :
  _has_credentials (heap s self) = false ->
  _has_login (heap s self) = true ->
  _get_cache_key (heap s self) = Ok key ->
  lookup (_cache s) key = None ->
  R (calls s) (connect_of (heap s self)) = Ok response ->
  _is_login_success response = Ok true ->
  exists item,
    lookup (_cache (fst (get_device_credentials R self address false save_data s))) key
    = Some item.
Proof.
  intros Hc Hl Hk Hnone Hconnect Hsucc.
  pose proof (cache_key_not_empty _ _ Hk) as Hne.
  destruct (has_login_lookup _ CONF_USERNAME Hl) as [u Hu];
    [unfold CONF_TUYA_LOGIN_KEYS; cbn; auto 10|].
  destruct (has_login_lookup _ CONF_AUTH_TYPE Hl) as [a Ha];
    [unfold CONF_TUYA_LOGIN_KEYS; cbn; auto 10|].
  pose proof (login_accepted R self s u a response key Hu Ha Hk Hconnect Hsucc) as Hlogin.
  unfold get_device_credentials, find_credentials, the_item, update_from.
  cbv [bind ret lift raise read write cache_get get_cache].
  rewrite Hc, Hl, Hk. cbn [negb andb key_truthy]. rewrite Hne. cbn [negb].
  rewrite Hnone. cbn [orb]. rewrite Hlogin, Hsucc. cbn [_cache].
  rewrite lookup_assign_same.
  match goal with
  | |- context [_fill_cache_item R key ?s0] =>
      destruct (fill_cache_item_fills_only R key s0) as (_ & _ & Hitem);
      cbn [_cache] in Hitem; rewrite lookup_assign_same in Hitem;
      destruct Hitem as (item' & Hitem' & _);
      destruct (_fill_cache_item R key s0) as [s1 [[]|e]]; cbn [fst] in Hitem'
  end.
  - rewrite Hitem'.
    destruct (lookup (credentials item') address) as [c|]; [|eauto].
    destruct (negb (Nat.eqb (List.length c) 0)); [|eauto].
    destruct save_data; [|eauto].
    rewrite Hitem'. destruct (Nat.eqb self (login item')); cbn; eauto.
  - cbn. eauto.
Qed.

Lemma later_caller_silent (self : loc) (address : string) (save_data : bool)
    (s : state) (key : string) (item : TuyaCloudCacheItem) :
  _has_login (heap s self) = true ->
  _get_cache_key (heap s self) = Ok key ->
  lookup (_cache s) key = Some item ->
  calls (fst (get_device_credentials R self address false save_data s)) = calls s
  /\ _cache (fst (get_device_credentials R self address false save_data s)) = _cache s.
Proof.
  intros Hl Hk Hitem.
  pose proof (cache_key_not_empty _ _ Hk) as Hne.
  unfold get_device_credentials, find_credentials, the_item, update_from.
  cbv [bind ret lift raise read write cache_get get_cache].
  destruct (_has_credentials (heap s self)) eqn:Hc; cbn [negb andb].
  - rewrite (has_login_nonempty _ Hl). cbn [negb].
    destruct save_data; split; reflexivity.
  - rewrite Hl, Hk. cbn [key_truthy]. rewrite Hne. cbn [negb]. rewrite Hitem.
    cbn [orb]. rewrite Hitem.
    destruct (lookup (credentials item) address) as [c|]; [|split; reflexivity].
    destruct (negb (Nat.eqb (List.length c) 0)); [|split; reflexivity].
    destruct save_data; [|split; reflexivity].
    rewrite Hitem. destruct (Nat.eqb self (login item)); split; reflexivity.
Qed.

Lemma later_callers_silent (key : string) : forall (later : list caller) (s : state),
  (exists item, lookup (_cache s) key = Some item) ->
  NoDup (map manager_of later) ->
  (forall c, In c later ->
     _has_login (heap s (manager_of c)) = true
     /\ _get_cache_key (heap s (manager_of c)) = Ok key) ->
  calls (fst (resolve_in_turn R later s)) = calls s.
Proof.
  induction later as [|c later IH]; intros s [item Hitem] Hnd Hall; [reflexivity|].
  cbn [resolve_in_turn]. unfold bind at 1, task.
  destruct (Hall c (or_introl eq_refl)) as [Hl Hk].
  destruct (later_caller_silent (manager_of c) (snd (fst c)) (snd c) s key item Hl Hk Hitem)
    as [Hcalls Hcache].
  pose proof (get_device_credentials_heap_but (manager_of c) (snd (fst c)) false (snd c) s)
    as Hbut.
  fold (resolve R c) in Hcalls, Hcache, Hbut.
  cbn [map] in Hnd. apply NoDup_cons_iff in Hnd as [Hnotin Hnd].
  rewrite IH; [exact Hcalls | rewrite Hcache; eauto | exact Hnd |].
  intros c' Hin. rewrite Hbut; [apply Hall; now right|].
  intros Heq. apply Hnotin. rewrite <- Heq. now apply in_map.
Qed.

(** callers served one after another: the first logs in, the others find
    its session *)
Lemma in_turn_logins (first : caller) (later : list caller) (s : state)
    (key : string) (response : pyval) :
  NoDup (map manager_of (first :: later)) ->
  (forall c, In c (first :: later) ->
     _has_login (heap s (manager_of c)) = true
     /\ _get_cache_key (heap s (manager_of c)) = Ok key) ->
  _has_credentials (heap s (manager_of first)) = false ->
  lookup (_cache s) key = None ->
  R (calls s) (connect_of (heap s (manager_of first))) = Ok response ->
  _is_login_success response = Ok true ->
  logins (calls (fst (resolve_in_turn R (first :: later) s))) = logins (calls s) + 1.
Proof.
  intros Hnd Hall Hc Hnone Hconnect Hsucc.
  destruct (Hall first (or_introl eq_refl)) as [Hl Hk].
  cbn [resolve_in_turn]. unfold bind at 1, task.
  cbn [map] in Hnd. apply NoDup_cons_iff in Hnd as [Hnotin Hnd].
  pose proof (get_device_credentials_heap_but (manager_of first) (snd (fst first)) false
                (snd first) s) as Hbut.
  fold (resolve R first) in Hbut.
  rewrite later_callers_silent with (key := key).
  - unfold resolve. now apply unseen_fingerprint_logs_in with (key := key).
  - unfold resolve. eapply first_caller_caches; eassumption.
  - exact Hnd.
  - intros c Hin. rewrite Hbut; [apply Hall; now right|].
    intros Heq. apply Hnotin. rewrite <- Heq. now apply in_map.
Qed.

(** C9, as the code has it. The manager has no lock and keeps no record
    of a login in flight.  Callers with one fingerprint that is not in
    the cache, served one after another, cause one login in all, once the
    client accepts it: the first logs in and each later one finds the
    session.  A caller that runs while the first awaits the answer to its
    connect request finds no item and logs in as well: two overlapping
    callers cause two logins. *)
Theorem one_login_when_served_in_turn :
  (forall (first : caller) (later : list caller) (s : state) (key : string)
          (response : pyval),
      NoDup (map manager_of (first :: later)) ->
      (forall c, In c (first :: later) ->
         _has_login (heap s (manager_of c)) = true
         /\ _get_cache_key (heap s (manager_of c)) = Ok key) ->
      _has_credentials (heap s (manager_of first)) = false ->
      lookup (_cache s) key = None ->
      R (calls s) (connect_of (heap s (manager_of first))) = Ok response ->
      _is_login_success response = Ok true ->
      logins (calls (fst (resolve_in_turn R (first :: later) s))) = logins (calls s) + 1)
  /\ (forall (first second : caller) (s : state) (key : string),
         (forall c, c = first \/ c = second ->
            _has_credentials (heap s (manager_of c)) = false
            /\ _has_login (heap s (manager_of c)) = true
            /\ _get_cache_key (heap s (manager_of c)) = Ok key) ->
         lookup (_cache s) key = None ->
         logins (calls (fst (resolve_overlapping R first second s)))
         = logins (calls s) + 2).
Proof.
  split.
  - intros first later s key response. apply in_turn_logins.
  - intros first second s key. apply overlapping_logins.
Qed.

End Await.

(** C9 as stated fails: of two callers with the same fingerprint, the
    second, run while the first awaits the answer to its connect request,
    logs in too. *)
Lemma overlapping_callers_log_in_twice :
  ~ (forall (K : Const) (R : remote) (first second : caller) (s : state)
            (key : string),
       (forall c, c = first \/ c = second ->
          @_has_credentials K (heap s (manager_of c)) = false
          /\ @_has_login K (heap s (manager_of c)) = true
          /\ @_get_cache_key K (heap s (manager_of c)) = Ok key) ->
       lookup (_cache s) key = None ->
       logins (calls (fst (@resolve_overlapping K R first second s)))
       = logins (calls s) + 1).
Proof.
  intros H.
  specialize (H hass_const accept (0, "DC:23:50:CF:CB:6A", false)
                (1, "DC:23:50:CF:CB:6A", false) two_managers_state fingerprint_1).
  assert (Hboth : forall c : caller,
             c = (0, "DC:23:50:CF:CB:6A", false) \/ c = (1, "DC:23:50:CF:CB:6A", false) ->
             @_has_credentials hass_const (heap two_managers_state (manager_of c)) = false
             /\ @_has_login hass_const (heap two_managers_state (manager_of c)) = true
             /\ @_get_cache_key hass_const (heap two_managers_state (manager_of c))
                = Ok fingerprint_1).
  { intros c [-> | ->]; repeat split; reflexivity. }
  specialize (H Hboth eq_refl). vm_compute in H. discriminate H.
Qed.

Lemma one_login_when_served_in_turn_witness :
  logins (calls (fst (@resolve_in_turn hass_const accept
                        [(0, "DC:23:50:CF:CB:6A", false); (1, "DC:23:50:CF:CB:6A", true)]
                        two_managers_state))) = 1
  /\ logins (calls (fst (@resolve_overlapping hass_const accept
                           (0, "DC:23:50:CF:CB:6A", false)
                           (1, "DC:23:50:CF:CB:6A", true)
                           two_managers_state))) = 2.
Proof.
  split.
  - apply (proj1 (@one_login_when_served_in_turn hass_const accept)
             (0, "DC:23:50:CF:CB:6A", false) [(1, "DC:23:50:CF:CB:6A", true)]
             two_managers_state fingerprint_1 (VDict [("success", VBool true)]));
      try reflexivity.
    + repeat (apply NoDup_cons; [cbn; intuition discriminate|]). apply NoDup_nil.
    + intros c [<- | [<- | []]]; split; reflexivity.
  - apply (proj2 (@one_login_when_served_in_turn hass_const accept)
             (0, "DC:23:50:CF:CB:6A", false) (1, "DC:23:50:CF:CB:6A", true)
             two_managers_state fingerprint_1);
      try reflexivity.
    intros c [-> | ->]; repeat split; reflexivity.
Defined.

(** ** The further properties at concrete inputs *)


Lemma check_login_after_login_witness :
  let s' := fst (@_login hass_const accept 0 true (hint_state login_fields_1)) in
  @_check_login hass_const 0 s' = (s', Ok true).
Proof.
  apply (@check_login_after_login hass_const accept 0 (hint_state login_fields_1) _
           (VDict [("success", VBool true)])); reflexivity.
Defined.

Lemma fill_without_devices_witness :
  exists s',
    @_fill_cache_item hass_const no_devices "fingerprint" session_state = (s', Ok tt)
    /\ _cache s' = _cache session_state
    /\ calls s' = [CallGet (@open_api hass_const login_fields_1) ReqDevices].
Proof.
  apply (@fill_without_devices hass_const no_devices "fingerprint" session_state
           {| api := Some (@open_api hass_const login_fields_1);
              login := 1; credentials := [] |}
           (@open_api hass_const login_fields_1)
           (VDict [("success", VBool true)]) VNone);
    try reflexivity.
  left. reflexivity.
Defined.

Lemma fill_stops_at_malformed_device_witness :
  exists s',
    @_fill_cache_item hass_const malformed_list "fingerprint" session_state
    = (s', Err AttributeError)
    /\ _cache s' = _cache session_state
    /\ calls s' = [CallGet (@open_api hass_const login_fields_1) ReqDevices].
Proof.
  apply (@fill_stops_at_malformed_device hass_const malformed_list "fingerprint"
           session_state
           {| api := Some (@open_api hass_const login_fields_1);
              login := 1; credentials := [] |}
           (@open_api hass_const login_fields_1)
           (VDict [("success", VBool true);
                   ("result", VList [VStr "eb4e6cocypjwgnxo"; VDict (device "a")])])
           (VStr "eb4e6cocypjwgnxo") [VDict (device "a")]);
    try reflexivity; try exact I.
Defined.

Lemma device_without_mac_skipped_witness :
  exists s',
    @fill_device hass_const no_mac "fingerprint" (@open_api hass_const login_fields_1)
      (VDict (device "a")) session_state = (s', Ok tt)
    /\ _cache s' = _cache session_state
    /\ calls s'
       = [CallGet (@open_api hass_const login_fields_1) (ReqFactoryInfo (VStr "a"))].
Proof.
  apply (@device_without_mac_skipped hass_const no_mac "fingerprint"
           (@open_api hass_const login_fields_1) (device "a") session_state
           (VDict [("success", VBool true);
                   ("result", VList [VDict [("id", VStr "a")]])])
           (VList [VDict [("id", VStr "a")]]));
    try reflexivity.
  right. exists [("id", VStr "a")], []. split; [reflexivity|]. right. reflexivity.
Defined.

Lemma no_data_no_remote_call_witness :
  exists s' r,
    @get_device_credentials hass_const offline 0 "DC:23:50:CF:CB:6A" true true cached_state
    = (s', Ok r)
    /\ calls s' = calls cached_state
    /\ _cache s' = _cache cached_state.
Proof.
  apply (@no_data_no_remote_call hass_const offline 0 "DC:23:50:CF:CB:6A" true true
           cached_state).
  reflexivity.
Defined.

Lemma cache_hit_is_silent_witness :
  @get_device_credentials hass_const offline 0 "DC:23:50:CF:CB:6A" false false cached_state
  = (cached_state, Ok (Some (@credentials_of hass_const complete_hint))).
Proof.
  apply (@cache_hit_is_silent hass_const offline 0 "DC:23:50:CF:CB:6A" "fingerprint"
           cached_state
           {| api := Some (@open_api hass_const []);
              login := 1;
              credentials := [("DC:23:50:CF:CB:6A", complete_hint)] |}).
  - reflexivity.
  - right. split; reflexivity.
  - reflexivity.
  - reflexivity.
Defined.

Lemma complete_hint_unique_keys : unique_keys complete_hint.
Proof.
  unfold unique_keys, complete_hint. cbn [map fst].
  repeat (apply NoDup_cons; [cbn; intuition discriminate|]).
  apply NoDup_nil.
Qed.

Lemma saved_credential_serves_next_calls_witness :
  exists s1,
    @get_device_credentials hass_const offline 0 "DC:23:50:CF:CB:6A" false true cached_state
    = (s1, Ok (Some (@credentials_of hass_const complete_hint)))
    /\ calls s1 = calls cached_state
    /\ (forall k v, lookup complete_hint k = Some v -> lookup (heap s1 0) k = Some v)
    /\ forall (R' : remote) (address' : string) (save_data : bool),
         exists s2 c',
           @get_device_credentials hass_const R' 0 address' false save_data s1
           = (s2, Ok (Some c'))
           /\ calls s2 = calls s1
           /\ same_device_fields (@credentials_of hass_const complete_hint) c'.
Proof.
  apply (@saved_credential_serves_next_calls hass_const offline 0 "DC:23:50:CF:CB:6A"
           "fingerprint" cached_state
           {| api := Some (@open_api hass_const []);
              login := 1;
              credentials := [("DC:23:50:CF:CB:6A", complete_hint)] |}
           complete_hint); try reflexivity.
  - right. split; reflexivity.
  - exact complete_hint_unique_keys.
Defined.

Lemma failed_lookup_keeps_data_witness :
  let s := hint_state login_fields_1 in
  let s' := fst (@get_device_credentials hass_const offline 0 "DC:23:50:CF:CB:6A"
                   true true s) in
  heap s' 0 = heap s 0
  \/ exists v, lookup (heap s 0) "auth_type" = Some (VAuthType v)
               /\ heap s' 0 = assign (heap s 0) "auth_type" (VInt v).
Proof.
  apply (@failed_lookup_keeps_data hass_const offline 0 "DC:23:50:CF:CB:6A" true true
           (hint_state login_fields_1)).
  intros c. vm_compute. discriminate.
Defined.

Lemma build_cache_keeps_dictionaries_witness :
  heap (fst (@build_cache hass_const three_devices [context_of "https://first"] []
               (hint_state login_fields_1))) 0
  = login_fields_1.
Proof.
  apply (@build_cache_keeps_dictionaries hass_const three_devices
           [context_of "https://first"] [] (hint_state login_fields_1) 0).
  cbn. lia.
Defined.

Lemma build_cache_shares_login_witness :
  let s' := fst (@build_cache hass_const first_list_fails
                   [context_of "https://first"; context_of "https://second"] []
                   (hint_state login_fields_1)) in
  exists item,
    lookup (_cache s') (fingerprint_of "https://second") = Some item
    /\ (login item = 1
        \/ exists old, lookup (_cache (hint_state login_fields_1))
                         (fingerprint_of "https://second") = Some old
                       /\ login item = login old).
Proof.
  eexists. split; [vm_compute; reflexivity|].
  apply (@build_cache_shares_login hass_const first_list_fails
           [context_of "https://first"; context_of "https://second"] []
           (hint_state login_fields_1) (fingerprint_of "https://second")).
  vm_compute. reflexivity.
Defined.

Lemma build_cache_skips_populated_witness :
  exists s',
    @build_cache hass_const offline [login_fields_1] [] relogin_state = (s', Ok tt)
    /\ calls s' = calls relogin_state /\ _cache s' = _cache relogin_state.
Proof.
  apply (@build_cache_skips_populated hass_const offline [login_fields_1] [] relogin_state).
  intros entry [<- | []].
  exists fingerprint_1, stale_item.
  split; [vm_compute; reflexivity|]. split; [vm_compute; reflexivity | discriminate].
Defined.

Lemma login_fields_unique_keys : unique_keys login_fields_1.
Proof.
  unfold unique_keys, login_fields_1. cbn [map fst].
  repeat (apply NoDup_cons; [cbn; intuition discriminate|]).
  apply NoDup_nil.
Qed.

Lemma get_login_from_cache_copies_first_witness :
  exists s',
    get_login_from_cache 0 login_cached_state = (s', Ok tt)
    /\ _cache s' = _cache login_cached_state
    /\ (forall k v, lookup login_fields_1 k = Some v -> lookup (heap s' 0) k = Some v)
    /\ (forall k, lookup login_fields_1 k = None ->
                  lookup (heap s' 0) k = lookup stale_data k).
Proof.
  exact (get_login_from_cache_copies_first 0 login_cached_state login_fields_unique_keys).
Defined.

Lemma try_login_unknown_country_witness :
  @_try_login hass_const hass_flow offline (form_input "Atlantis") 0 1 flow_state
  = (set_heap flow_state 0 [("base", VStr "invalid_country_code")], Ok None).
Proof.
  apply (@try_login_unknown_country hass_const hass_flow offline (form_input "Atlantis")
           0 1 flow_state (VStr "Atlantis")).
  - reflexivity.
  - intros country [<- | [<- | []]]; reflexivity.
Defined.

Lemma try_login_success_witness :
  let s' := fst (@_try_login hass_const hass_flow smartlife_only (form_input "Brazil")
                   0 1 flow_state) in
  @_check_login hass_const 3 s' = (s', Ok true)
  /\ lookup (heap s' 3) "auth_type" = Some (VInt 0)
  /\ heap s' 0 = [] /\ heap s' 1 = []
  /\ logins (calls s') = 2.
Proof.
  destruct (@try_login_success hass_const hass_flow smartlife_only (form_input "Brazil")
              0 1 flow_state
              (fst (@_try_login hass_const hass_flow smartlife_only (form_input "Brazil")
                      0 1 flow_state)) 3)
    as (_ & Hcheck & _ & Hkept & _).
  - vm_compute. reflexivity.
  - split; [exact Hcheck|].
    split; [vm_compute; reflexivity|].
    split; [apply (Hkept 0); cbn; lia|].
    split; [apply (Hkept 1); cbn; lia | vm_compute; reflexivity].
Defined.

Lemma try_login_failure_witness :
  let s' := fst (@_try_login hass_const hass_flow refuse (form_input "Brazil")
                   0 1 flow_state) in
  (lookup (heap s' 0) "base" = Some (VStr "invalid_country_code")
   /\ calls s' = calls flow_state /\ _cache s' = _cache flow_state)
  \/ (lookup (heap s' 0) "base" = Some (VStr "login_error")
      /\ logins (calls s') = logins (calls flow_state) + 3).
Proof.
  apply (@try_login_failure hass_const hass_flow refuse (form_input "Brazil") 0 1
           flow_state).
  - vm_compute. reflexivity.
  - cbn. lia.
  - discriminate.
Defined.

Lemma first_lookup_after_login_witness :
  let s1 := fst (@_try_login hass_const hass_flow smartlife_only (form_input "Brazil")
                   0 1 flow_state) in
  let s2 := fst (update_from 2 3 s1) in
  @get_device_credentials hass_const smartlife_only 2 "DC:23:50:CF:CB:6A" false true s2
  = (s2, Ok None).
Proof.
  destruct (@first_lookup_after_login hass_const hass_flow smartlife_only
              (form_input "Brazil") 0 1 2 "DC:23:50:CF:CB:6A" true flow_state
              (fst (@_try_login hass_const hass_flow smartlife_only (form_input "Brazil")
                      0 1 flow_state)) 3)
    as [_ Hnone].
  - vm_compute. reflexivity.
  - cbn. lia.
  - vm_compute. reflexivity.
  - apply Hnone.
    + vm_compute. reflexivity.
    + intros key _. reflexivity.
Defined.

Lemma enum_member_blocks_lookup_witness :
  let s := hint_state enum_full_login in
  @get_device_credentials hass_const accept 0 "DC:23:50:CF:CB:6A" false true s
  = (s, Err TypeError)
  /\ @_check_login hass_const 0 s = (s, Err TypeError)
  /\ forall s' response,
       @_login hass_const accept 0 true s = (s', Ok response) ->
       @_is_login_success hass_const response = Ok true ->
       heap s' 0 = assign (heap s 0) "auth_type" (VInt 0)
       /\ exists key, @_get_cache_key hass_const (heap s' 0) = Ok key.
Proof.
  apply (@enum_member_blocks_lookup hass_const accept 0 "DC:23:50:CF:CB:6A" false true
           (hint_state enum_full_login) 0).
  - reflexivity.
  - reflexivity.
  - right. reflexivity.
Defined.
